(** * http-over-ai: the connection-level byte stream manager

    A shallow embedding of the [Connection] class of the server (request
    framing in [onData], response post-processing in [handleRequest] and
    [safeContentLength], back-pressure in [flush] / [onDrain]) together
    with the platform primitives it calls, followed by the properties of
    the natural-language specification. *)

From Stdlib Require Import String Ascii List NArith Arith Bool Lia.
Import ListNotations.

Local Open Scope N_scope.

(* ================================================================== *)
(** ** Platform primitives                                             *)
(* ================================================================== *)

Module JS.

(** A JavaScript string is a sequence of UTF-16 code units; a
    [Uint8Array] is a sequence of octets.  Both are kept as numbers so
    that the arithmetic of the encoders reads as in the standard. *)
Definition jsstring := list N.
Definition Uint8Array := list N.

(** An ASCII literal of the source, as code units. *)
Definition lit (s : string) : jsstring :=
  map N_of_ascii (list_ascii_of_string s).

Definition CR : N := 13.
Definition LF : N := 10.
Definition CRLF : jsstring := [CR; LF].

(** [String.prototype.indexOf] from position 0; [None] stands for -1. *)
Fixpoint startsWith (p s : jsstring) : bool :=
  match p, s with
  | [], _ => true
  | a :: p', b :: s' => (a =? b) && startsWith p' s'
  | _ :: _, [] => false
  end.

Fixpoint indexOf (p s : jsstring) : option nat :=
  if startsWith p s then Some O
  else match s with
       | [] => None
       | _ :: s' => option_map S (indexOf p s')
       end.

(** [s.slice(0, k)] and [s.slice(k)] for [0 <= k]. *)
Definition slice_to (k : nat) (s : list N) : list N := firstn k s.
Definition slice_from (k : nat) (s : list N) : list N := skipn k s.

(** *** Numbers and decimal digits *)

(** [Number(ds)] on a string of decimal digits.  The value is kept exact:
    a double is exact below 2^53 and rounding is monotone, so every
    comparison with a string length made by the program agrees. *)
Definition Number (ds : jsstring) : N :=
  fold_left (fun acc c => 10 * acc + (c - 48)) ds 0.

(** The digits a template literal prints for a length. *)
Fixpoint toString_fuel (fuel : nat) (n : N) (acc : jsstring) : jsstring :=
  match fuel with
  | O => acc
  | S f =>
      let acc' := (48 + n mod 10) :: acc in
      if n <? 10 then acc' else toString_fuel f (n / 10) acc'
  end.

Definition toString (n : N) : jsstring :=
  toString_fuel (S (N.to_nat (N.log2 n))) n [].

(** *** Regular-expression character classes *)

Definition is_digit (c : N) : bool := (48 <=? c) && (c <=? 57).

(** [\s]: WhiteSpace and LineTerminator code points. *)
Definition is_space (c : N) : bool :=
  ((9 <=? c) && (c <=? 13)) || (c =? 32) || (c =? 160) || (c =? 5760)
  || ((8192 <=? c) && (c <=? 8202)) || (c =? 8232) || (c =? 8233)
  || (c =? 8239) || (c =? 8287) || (c =? 12288) || (c =? 65279).

(** Canonicalisation under the [i] flag (no [u] flag), as far as it
    matters for ASCII pattern characters: a code unit of 128 or more
    never canonicalises to an ASCII one, so taking it unchanged decides
    every comparison with a pattern character the same way. *)
Definition canon (c : N) : N :=
  if (97 <=? c) && (c <=? 122) then c - 32 else c.

(** A literal pattern matched case-insensitively at the head of [s];
    the result is what follows the match. *)
Fixpoint match_lit_ci (pat s : jsstring) : option jsstring :=
  match pat with
  | [] => Some s
  | p :: pat' =>
      match s with
      | [] => None
      | c :: s' => if canon p =? canon c then match_lit_ci pat' s' else None
      end
  end.

(** The longest prefix in a character class, and what follows it. *)
Fixpoint span (f : N -> bool) (s : jsstring) : jsstring * jsstring :=
  match s with
  | [] => ([], [])
  | c :: s' =>
      if f c then let (a, b) := span f s' in (c :: a, b) else ([], s)
  end.

(** *** TextEncoder: UTF-16 to UTF-8 *)

Definition is_high (u : N) : bool := (55296 <=? u) && (u <=? 56319).
Definition is_low (u : N) : bool := (56320 <=? u) && (u <=? 57343).

Definition REPLACEMENT : N := 65533.

(** Conversion to scalar values: a surrogate pair is one code point, a
    lone surrogate becomes U+FFFD. *)
Fixpoint scalar_values (s : jsstring) : list N :=
  match s with
  | [] => []
  | u :: tl =>
      if is_high u then
        match tl with
        | v :: tl' =>
            if is_low v
            then (65536 + N.shiftl (u - 55296) 10 + (v - 56320))
                   :: scalar_values tl'
            else REPLACEMENT :: scalar_values tl
        | [] => [REPLACEMENT]
        end
      else if is_low u then REPLACEMENT :: scalar_values tl
      else u :: scalar_values tl
  end.

Definition utf8_of_scalar (cp : N) : Uint8Array :=
  if cp <? 128 then [cp]
  else if cp <? 2048 then
    [N.lor 192 (N.shiftr cp 6); N.lor 128 (N.land cp 63)]
  else if cp <? 65536 then
    [N.lor 224 (N.shiftr cp 12);
     N.lor 128 (N.land (N.shiftr cp 6) 63);
     N.lor 128 (N.land cp 63)]
  else
    [N.lor 240 (N.shiftr cp 18);
     N.lor 128 (N.land (N.shiftr cp 12) 63);
     N.lor 128 (N.land (N.shiftr cp 6) 63);
     N.lor 128 (N.land cp 63)].

(** [new TextEncoder().encode(s)] *)
Definition encode (s : jsstring) : Uint8Array :=
  flat_map utf8_of_scalar (scalar_values s).

(** *** TextDecoder: UTF-8 to UTF-16, replacement error mode *)

(** A multi-byte sequence in progress: the code point so far, the
    continuation bytes still needed and the range allowed for the next
    one. *)
Record pending_seq := mkPending {
  seq_cp : N;
  seq_need : nat;
  seq_lower : N;
  seq_upper : N
}.

Inductive lead_result :=
| LeadDone (cp : N)
| LeadMore (p : pending_seq)
| LeadBad.

Definition utf8_lead (b : N) : lead_result :=
  if b <=? 127 then LeadDone b
  else if (194 <=? b) && (b <=? 223) then
    LeadMore (mkPending (N.land b 31) 1 128 191)
  else if (224 <=? b) && (b <=? 239) then
    LeadMore (mkPending (N.land b 15) 2
                (if b =? 224 then 160 else 128)
                (if b =? 237 then 159 else 191))
  else if (240 <=? b) && (b <=? 244) then
    LeadMore (mkPending (N.land b 7) 3
                (if b =? 240 then 144 else 128)
                (if b =? 244 then 143 else 191))
  else LeadBad.

Fixpoint utf8_decode_from (st : option pending_seq) (bs : Uint8Array)
  : list N :=
  match bs with
  | [] => match st with None => [] | Some _ => [REPLACEMENT] end
  | b :: bs' =>
      let fresh :=
        match utf8_lead b with
        | LeadDone cp => cp :: utf8_decode_from None bs'
        | LeadMore p => utf8_decode_from (Some p) bs'
        | LeadBad => REPLACEMENT :: utf8_decode_from None bs'
        end in
      match st with
      | None => fresh
      | Some p =>
          if (seq_lower p <=? b) && (b <=? seq_upper p) then
            let cp := N.lor (N.shiftl (seq_cp p) 6) (N.land b 63) in
            match seq_need p with
            | O | S O => cp :: utf8_decode_from None bs'
            | S k => utf8_decode_from (Some (mkPending cp k 128 191)) bs'
            end
          else REPLACEMENT :: fresh
      end
  end.

Definition utf16_of_scalar (cp : N) : jsstring :=
  if cp <? 65536 then [cp]
  else [55296 + N.shiftr (cp - 65536) 10; 56320 + N.land (cp - 65536) 1023].

(** A leading byte order mark is dropped (the decoder's default). *)
Definition strip_bom (bs : Uint8Array) : Uint8Array :=
  match bs with
  | a :: b :: c :: bs' =>
      if (a =? 239) && (b =? 187) && (c =? 191) then bs' else bs
  | _ => bs
  end.

(** [new TextDecoder().decode(bs)]: a fresh, non-streaming decoder, so a
    sequence cut short by the end of [bs] is an error. *)
Definition decode (bs : Uint8Array) : jsstring :=
  flat_map utf16_of_scalar (utf8_decode_from None (strip_bom bs)).

End JS.

Import JS.

(* ================================================================== *)
(** ** Module-level functions of the server                            *)
(* ================================================================== *)

(** The header/body delimiter, ["\r\n\r\n"]. *)
Definition DELIM : jsstring := [CR; LF; CR; LF].

Definition splitHttp (buf : jsstring) : option (jsstring * jsstring) :=
  match indexOf DELIM buf with
  | None => None
  | Some i => Some (slice_to i buf, slice_from (i + 4) buf)
  end.

(** [/Content-Length:\s*(\d+)/i] tried at the head of [s]: the captured
    digits and what follows the match.  The classes [\s] and [\d] are
    disjoint and a digit must follow the white space, so giving back white
    space or digits never turns a failure into a match: the greedy
    quantifiers take the longest runs. *)
Definition reContentLength_here (s : jsstring)
  : option (jsstring * jsstring) :=
  match match_lit_ci (lit "Content-Length:") s with
  | None => None
  | Some r =>
      let (ds, post) := span is_digit (snd (span is_space r)) in
      match ds with
      | [] => None
      | _ :: _ => Some (ds, post)
      end
  end.

(** The first match in [s]: the text before it, the captured digits and
    the text after it. *)
Fixpoint reContentLength_exec (s : jsstring)
  : option (jsstring * jsstring * jsstring) :=
  match reContentLength_here s with
  | Some (ds, post) => Some ([], ds, post)
  | None =>
      match s with
      | [] => None
      | c :: s' =>
          match reContentLength_exec s' with
          | Some (pre, ds, post) => Some (c :: pre, ds, post)
          | None => None
          end
      end
  end.

(** [/Connection:\s*close/i] tried at the head of [s], and anywhere. *)
Definition reConnectionClose_here (s : jsstring) : bool :=
  match match_lit_ci (lit "Connection:") s with
  | None => false
  | Some r =>
      match match_lit_ci (lit "close") (snd (span is_space r)) with
      | Some _ => true
      | None => false
      end
  end.

Fixpoint reConnectionClose_test (s : jsstring) : bool :=
  reConnectionClose_here s
  || match s with
     | [] => false
     | _ :: s' => reConnectionClose_test s'
     end.

Definition safeContentLength (headers body : jsstring) : jsstring :=
  let len := N.of_nat (length (encode body)) in
  match reContentLength_exec headers with
  | Some (pre, _, post) =>
      pre ++ lit "Content-Length: " ++ toString len ++ post
  | None =>
      headers ++ CRLF ++ lit "Content-Length: " ++ toString len
  end.

(* ================================================================== *)
(** ** The connection                                                  *)
(* ================================================================== *)

Inductive Role := user | assistant.

Record ChatMessage := mkChatMessage {
  role : Role;
  content : jsstring
}.

(** What the [catch] clause can receive: an [Error] with its message, or
    any other thrown value. *)
Inductive Thrown :=
| ThrownError (message : jsstring)
| ThrownOther.

(** The socket as the program sees it: the bytes [write] has taken, in
    order, and whether [end] was called. *)
Record Socket := mkSocket {
  taken : Uint8Array;
  ended : bool
}.

(** An activation of [handleRequest] suspended at its [await]: the
    responder call it issued, identified by issue number, and the framed
    request it was given.  The call reads the connection's history array;
    nothing below depends on when the client serialises it. *)
Record Call := mkCall {
  call_id : nat;
  call_request : Uint8Array
}.

(** The fields of the class ([logPath] and [verbose] only feed the log
    sink), and the suspended activations that belong to the connection. *)
Record Connection := mkConnection {
  sock : Socket;
  buffer : jsstring;
  sink : Uint8Array;
  history : list ChatMessage;
  closing : bool;
  outstanding : list Call;
  issued : nat
}.

Definition open (s : Socket) : Connection :=
  mkConnection s [] [] [] false [] O.

Definition fresh_socket : Socket := mkSocket [] false.

(** [this.sink.write(bs)]: the sink accumulates what is written to it. *)
Definition sink_write (bs : Uint8Array) (c : Connection) : Connection :=
  mkConnection (sock c) (buffer c) (sink c ++ bs) (history c) (closing c)
    (outstanding c) (issued c).

(** What [this.sink.flush()] hands over is an [ArrayBuffer]: the sink is
    started with [stream] and without [asUint8Array], and the cast of the
    source is erased at run time.  An [ArrayBuffer] has a [byteLength] but
    no [length]: [chunk.length] is [undefined]. *)
Definition chunk_length (chunk : Uint8Array) : option nat := None.

(** [n < x] for a number [n]: a comparison with [undefined] is false. *)
Definition less_than (n : nat) (x : option nat) : bool :=
  match x with
  | Some m => (n <? m)%nat
  | None => false
  end.

(** [flush].  [this.sink.flush()] hands over everything written to the
    sink since the last flush and leaves the sink empty.  [n] is the value
    [this.sock.write(chunk)] returns: the socket has taken the first [n]
    bytes of [chunk] (all of it when [n] is its length or more).  The test
    [n < chunk.length] guards the write-back of the rest to the sink. *)
Definition flush (n : nat) (c : Connection) : Connection :=
  let chunk := sink c in
  match chunk with
  | [] =>
      if closing c
      then mkConnection (mkSocket (taken (sock c)) true) (buffer c) []
             (history c) (closing c) (outstanding c) (issued c)
      else mkConnection (sock c) (buffer c) []
             (history c) (closing c) (outstanding c) (issued c)
  | _ :: _ =>
      let sock' := mkSocket (taken (sock c) ++ firstn n chunk)
                     (ended (sock c)) in
      if less_than n (chunk_length chunk)
      then mkConnection sock' (buffer c) (slice_from n chunk)
             (history c) (closing c) (outstanding c) (issued c)
      else mkConnection sock' (buffer c) []
             (history c) (closing c) (outstanding c) (issued c)
  end.

Definition onDrain (n : nat) (c : Connection) : Connection := flush n c.

(** [handleRequest] up to its [await]: the request is decoded, pushed on
    the history, and the responder call is issued. *)
Definition handleRequest (c : Connection) (reqBytes : Uint8Array)
  : Connection :=
  let raw := decode reqBytes in
  mkConnection (sock c) (buffer c) (sink c)
    (history c ++ [mkChatMessage user raw]) (closing c)
    (outstanding c ++ [mkCall (issued c) reqBytes]) (S (issued c)).

(** Lines 123-129: the Content-Length of the responder's text is
    recomputed when the text has a delimiter. *)
Definition normalizeOutput (output_text : jsstring) : jsstring :=
  match indexOf DELIM output_text with
  | Some i =>
      let headers := slice_to i output_text in
      let body := slice_from (i + 4) output_text in
      safeContentLength headers body ++ DELIM ++ body
  | None => output_text
  end.

(** [handleRequest] after the [await], when the call is fulfilled. *)
Definition handleRequest_fulfilled (n : nat) (output_text : jsstring)
  (c : Connection) : Connection :=
  let out := normalizeOutput output_text in
  let closing' := if reConnectionClose_test out then true else closing c in
  flush n
    (sink_write (encode out)
       (mkConnection (sock c) (buffer c) (sink c)
          (history c ++ [mkChatMessage assistant out]) closing'
          (outstanding c) (issued c))).

Definition errorMessage (e : Thrown) : jsstring :=
  match e with
  | ThrownError m => m
  | ThrownOther => lit "LLM proxy error"
  end.

Definition errorResponse (msg : jsstring) : jsstring :=
  lit "HTTP/1.1 500 Internal Server Error" ++ CRLF
  ++ lit "Content-Type: text/plain; charset=utf-8" ++ CRLF
  ++ lit "Content-Length: " ++ toString (N.of_nat (length msg)) ++ CRLF
  ++ lit "Connection: close" ++ DELIM ++ msg.

(** [handleRequest] after the [await], when the call is rejected. *)
Definition handleRequest_rejected (n : nat) (e : Thrown) (c : Connection)
  : Connection :=
  let msg := errorMessage e in
  let body := errorResponse msg in
  flush n
    (sink_write (encode body)
       (mkConnection (sock c) (buffer c) (sink c)
          (history c) true (outstanding c) (issued c))).

(** The loop of [onData].  Every turn that frames a request removes at
    least the four delimiter characters from the buffer, so the length of
    the buffer bounds the number of turns; [None] is the loop running out
    of [fuel]. *)
Fixpoint onData_loop (fuel : nat) (c : Connection) : option Connection :=
  match fuel with
  | O => None
  | S fuel' =>
      match splitHttp (buffer c) with
      | None => Some c
      | Some (hdrs, rest) =>
          let bodyLen :=
            match reContentLength_exec hdrs with
            | Some (_, ds, _) => Number ds
            | None => 0
            end in
          if N.of_nat (length rest) <? bodyLen then Some c
          else
            let k := (length hdrs + 4 + N.to_nat bodyLen)%nat in
            let reqText := slice_to k (buffer c) in
            let c' := mkConnection (sock c) (slice_from k (buffer c))
                        (sink c) (history c) (closing c)
                        (outstanding c) (issued c) in
            onData_loop fuel' (handleRequest c' (encode reqText))
      end
  end.

Definition onData (chunk : Uint8Array) (c : Connection) : Connection :=
  let c' := mkConnection (sock c) (buffer c ++ decode chunk) (sink c)
              (history c) (closing c) (outstanding c) (issued c) in
  match onData_loop (S (length (buffer c'))) c' with
  | Some c'' => c''
  | None => c'
  end.

(** *** Events of the event loop *)

(** Socket data, socket drain, and the settling of a responder call.  The
    handlers of the last three call [flush] once; [n] is what the socket's
    [write] returns there. *)
Inductive Event :=
| EvData (chunk : Uint8Array)
| EvDrain (n : nat)
| EvFulfil (id : nat) (output_text : jsstring) (n : nat)
| EvReject (id : nat) (e : Thrown) (n : nat).

Fixpoint remove_call (id : nat) (cs : list Call) : option (list Call) :=
  match cs with
  | [] => None
  | k :: cs' =>
      if (call_id k =? id)%nat then Some cs'
      else match remove_call id cs' with
           | Some r => Some (k :: r)
           | None => None
           end
  end.

(** A call settles once; the settling of a call that is not outstanding
    does not occur and leaves the connection as it is. *)
Definition settle (id : nat) (c : Connection) : option Connection :=
  match remove_call id (outstanding c) with
  | Some cs =>
      Some (mkConnection (sock c) (buffer c) (sink c) (history c)
              (closing c) cs (issued c))
  | None => None
  end.

Definition step (c : Connection) (ev : Event) : Connection :=
  match ev with
  | EvData chunk => onData chunk c
  | EvDrain n => onDrain n c
  | EvFulfil id output_text n =>
      match settle id c with
      | Some c' => handleRequest_fulfilled n output_text c'
      | None => c
      end
  | EvReject id e n =>
      match settle id c with
      | Some c' => handleRequest_rejected n e c'
      | None => c
      end
  end.

Definition run (c : Connection) (evs : list Event) : Connection :=
  fold_left step evs c.

(** The framed messages a connection has produced from the chunks fed to
    it: the arguments of its [handleRequest] calls, in call order. *)
Definition feed (chunks : list Uint8Array) : list Uint8Array :=
  map call_request
    (outstanding (fold_left (fun c ch => onData ch c) chunks
                    (open fresh_socket))).

(** The bytes of an ASCII literal, as a client sends them. *)
Definition ascii_bytes (s : string) : Uint8Array := lit s.

(** *** Auxiliary views used to state the properties *)

(** The requests the loop of [onData] frames from a buffer, in order, and
    the buffer it leaves: the loop with the connection taken away. *)
Fixpoint frames (fuel : nat) (buf : jsstring)
  : option (list jsstring * jsstring) :=
  match fuel with
  | O => None
  | S fuel' =>
      match splitHttp buf with
      | None => Some ([], buf)
      | Some (hdrs, rest) =>
          let bodyLen :=
            match reContentLength_exec hdrs with
            | Some (_, ds, _) => Number ds
            | None => 0
            end in
          if N.of_nat (length rest) <? bodyLen then Some ([], buf)
          else
            let k := (length hdrs + 4 + N.to_nat bodyLen)%nat in
            match frames fuel' (slice_from k buf) with
            | Some (ms, b) => Some (slice_to k buf :: ms, b)
            | None => None
            end
      end
  end.

(** The declared length a reader of a header block finds, as [onData]
    reads it. *)
Definition declaredLength (hdrs : jsstring) : option N :=
  match reContentLength_exec hdrs with
  | Some (_, ds, _) => Some (Number ds)
  | None => None
  end.

(* ================================================================== *)
(** ** Views, helpers and example data used by the statements          *)
(* ================================================================== *)

(** A result of [splitHttp] found behind a prefix [a]. *)
Definition under (a : jsstring) (o : option (jsstring * jsstring))
  : option (jsstring * jsstring) :=
  match o with
  | Some (h, r) => Some (a ++ h, r)
  | None => None
  end.

(** What stops a run is not in the class. *)
Definition stops (f : N -> bool) (s : jsstring) : bool :=
  match s with
  | [] => true
  | c :: _ => negb (f c)
  end.

Definition is_ascii (c : N) : bool := c <? 128.

Definition with_buffer (b : jsstring) (c : Connection) : Connection :=
  mkConnection (sock c) b (sink c) (history c) (closing c)
    (outstanding c) (issued c).

(** The synchronous parts of [handleRequest] for a run of framed
    requests. *)
Definition issue_all (c : Connection) (ms : list jsstring) : Connection :=
  fold_left handleRequest (map encode ms) c.

Fixpoint calls_from (k : nat) (ms : list jsstring) : list Call :=
  match ms with
  | [] => []
  | m :: ms' => mkCall k (encode m) :: calls_from (S k) ms'
  end.

(** The header block of the error response for a message of [n] code
    units. *)
Definition errorHeaders (n : nat) : jsstring :=
  lit "HTTP/1.1 500 Internal Server Error" ++ CRLF
  ++ lit "Content-Type: text/plain; charset=utf-8" ++ CRLF
  ++ lit "Content-Length: " ++ toString (N.of_nat n) ++ CRLF
  ++ lit "Connection: close".

(** Bring the argument of the search in the goal to the shape it has in
    [H], up to computation on the literals. *)
Ltac align_exec H :=
  match type of H with
  | reContentLength_exec ?s2 = _ =>
      match goal with
      | |- context [reContentLength_exec ?s1] => change s1 with s2
      end
  end.

Definition ping_request : Uint8Array :=
  ascii_bytes "GET /ping HTTP/1.1" ++ CRLF ++ ascii_bytes "Host: x" ++ DELIM.

Definition pong_response : jsstring :=
  lit "HTTP/1.1 200 OK" ++ CRLF ++ lit "Content-Type: text/plain"
  ++ DELIM ++ lit "pong".

Definition headers_999 : jsstring :=
  lit "HTTP/1.1 200 OK" ++ CRLF ++ lit "Content-Length: 999".

Definition response_999 : jsstring := headers_999 ++ DELIM ++ lit "pong".

(** A response whose only close directive is in its body. *)
Definition body_close_response : jsstring :=
  lit "HTTP/1.1 200 OK" ++ CRLF ++ lit "Content-Type: text/plain"
  ++ DELIM ++ lit "Connection: close".

(** A connection that has answered one request with the error response,
    all of it taken by the socket. *)
Definition after_error : Connection :=
  run (open fresh_socket)
    [EvData ping_request; EvReject 0 (ThrownError (lit "boom")) 1000].

(** The same, when the socket takes only the first ten bytes of the error
    response. *)
Definition after_partial_error : Connection :=
  run (open fresh_socket)
    [EvData ping_request; EvReject 0 (ThrownError (lit "boom")) 10].

(** A response with a header whose name ends in Content-Length before its
    Content-Length header, and one with the header twice. *)
Definition x_header_response : jsstring :=
  lit "HTTP/1.1 200 OK" ++ CRLF ++ lit "X-Content-Length: 5" ++ CRLF
  ++ lit "Content-Length: 999" ++ DELIM ++ lit "pong".

(** A response without a Content-Length header, but with a header whose
    name ends in Content-Length. *)
Definition x_only_response : jsstring :=
  lit "HTTP/1.1 200 OK" ++ CRLF ++ lit "X-Content-Length: 5" ++ DELIM
  ++ lit "pong".

Definition duplicate_header_response : jsstring :=
  lit "HTTP/1.1 200 OK" ++ CRLF ++ lit "Content-Length: 999" ++ CRLF
  ++ lit "Content-Length: 6" ++ DELIM ++ lit "pong".

Definition other_request : Uint8Array :=
  ascii_bytes "GET /other HTTP/1.1" ++ DELIM.

Definition other_response : jsstring :=
  lit "HTTP/1.1 200 OK" ++ DELIM ++ lit "other".

(** A request line with the two bytes of U+00E9 cut across two chunks. *)
Definition cafe_head : Uint8Array := ascii_bytes "GET /caf" ++ [195].
Definition cafe_tail : Uint8Array :=
  [169] ++ ascii_bytes " HTTP/1.1" ++ DELIM.

(** A request that declares a body of two bytes. *)
Definition post_headers : Uint8Array :=
  ascii_bytes "POST /a HTTP/1.1" ++ CRLF ++ ascii_bytes "Content-Length: 2"
  ++ DELIM.

(** Its body, the two bytes of U+00E9. *)
Definition e_acute : Uint8Array := [195; 169].

Definition get_b : Uint8Array := ascii_bytes "GET /b HTTP/1.1" ++ DELIM.

(** A request as the framer measures it: a header block, the delimiter,
    and as many code units of body as the header block declares (none
    when it declares nothing). *)
Definition complete_request (r : jsstring) : Prop :=
  exists h b,
    splitHttp r = Some (h, b)
    /\ N.of_nat (length b)
       = match declaredLength h with Some l => l | None => 0 end.

(* ================================================================== *)
(** ** The rest of the class: user agent and log path                  *)
(* ================================================================== *)

(** [s.split(sep)] for a non-empty separator: the pieces between the
    successive occurrences of [sep], found left to right.  Every cut
    removes at least one code unit, so the length of [s] bounds the
    number of cuts. *)
Fixpoint split_fuel (fuel : nat) (sep s : jsstring) : list jsstring :=
  match fuel with
  | O => [s]
  | S fuel' =>
      match indexOf sep s with
      | None => [s]
      | Some i =>
          slice_to i s
            :: split_fuel fuel' sep (slice_from (i + length sep) s)
      end
  end.

Definition split (sep s : jsstring) : list jsstring :=
  split_fuel (S (length s)) sep s.

Definition DEFAULT_USER_AGENT : jsstring :=
  lit "Mozilla/5.0 (Macintosh; Intel Mac OS X 10_15_7) AppleWebKit/537.36 (KHTML, like Gecko) Chrome/123.0.0.0 Safari/537.36".

(** Line 107 of [handleRequest]:
    [raw.split('User-Agent: ')[1]?.split('\r\n')[0] ?? DEFAULT_USER_AGENT].
    An index past the end of an array gives [undefined], which [?.] passes
    on and [??] replaces by the default. *)
Definition userAgent (raw : jsstring) : jsstring :=
  match nth_error (split (lit "User-Agent: ") raw) 1 with
  | None => DEFAULT_USER_AGENT
  | Some t =>
      match nth_error (split CRLF t) 0 with
      | Some u => u
      | None => DEFAULT_USER_AGENT
      end
  end.

(** [s.replace(/[:.]/g, r)] for a one-character replacement [r]. *)
Definition replace_colon_dot (r : N) (s : jsstring) : jsstring :=
  map (fun c => if (c =? 58) || (c =? 46) then r else c) s.

(** The log path the constructor builds from [new Date().toISOString()]
    and [sock.remoteAddress]; an address that is [undefined] prints as
    that word. *)
Definition logPath (iso : jsstring) (remoteAddress : option jsstring)
  : jsstring :=
  lit "./logs/" ++ replace_colon_dot 45 iso ++ lit "_"
  ++ match remoteAddress with
     | Some a => replace_colon_dot 95 a
     | None => lit "undefined"
     end
  ++ lit ".log".

(** A request with a user agent header, and the user agent in it. *)
Definition curl_request : jsstring :=
  lit "GET / HTTP/1.1" ++ CRLF ++ lit "User-Agent: curl/8.0" ++ CRLF
  ++ lit "Host: x" ++ DELIM.

(** An ASCII request with a two-byte body. *)
Definition post_ascii : Uint8Array :=
  post_headers ++ ascii_bytes "hi".

(** The number of turns of a role in a history. *)
Definition is_role (r : Role) (m : ChatMessage) : bool :=
  match r, role m with
  | user, user | assistant, assistant => true
  | _, _ => false
  end.

Definition turns (r : Role) (h : list ChatMessage) : nat :=
  length (filter (is_role r) h).

(** The declared body length [onData] works with: 0 when the header
    block has no match. *)
Definition bodyLength (hdrs : jsstring) : N :=
  match declaredLength hdrs with
  | Some l => l
  | None => 0
  end.

(* ================================================================== *)
(** ** Decimal digits                                                  *)
(* ================================================================== *)

Lemma Number_from_app (a : N) (xs ys : jsstring) :
  fold_left (fun acc c => 10 * acc + (c - 48)) (xs ++ ys) a
  = fold_left (fun acc c => 10 * acc + (c - 48)) ys
      (fold_left (fun acc c => 10 * acc + (c - 48)) xs a).
Proof. apply fold_left_app. Qed.

Lemma digit_back (x : N) : 48 + x - 48 = x.
Proof. lia. Qed.

Lemma toString_fuel_value (fuel : nat) :
  forall n acc,
    n < 2 ^ N.of_nat fuel ->
    fold_left (fun a c => 10 * a + (c - 48)) (toString_fuel fuel n acc) 0
    = fold_left (fun a c => 10 * a + (c - 48)) acc n.
Proof.
  induction fuel as [|f IH]; intros n acc Hn.
  - simpl in Hn. assert (n = 0) by lia. subst n. reflexivity.
  - cbn [toString_fuel]. destruct (N.ltb_spec n 10) as [Hlt|Hge].
    + cbn [fold_left]. rewrite N.mod_small by assumption.
      rewrite digit_back. reflexivity.
    + rewrite IH.
      * cbn [fold_left]. rewrite digit_back.
        rewrite <- (N.div_mod n 10) by lia. reflexivity.
      * rewrite Nat2N.inj_succ, N.pow_succ_r' in Hn.
        apply N.Div0.div_lt_upper_bound. lia.
Qed.

Lemma log2_fuel_enough (n : N) : n < 2 ^ N.of_nat (S (N.to_nat (N.log2 n))).
Proof.
  rewrite Nat2N.inj_succ, N2Nat.id.
  destruct n as [|p]; [reflexivity|].
  apply N.log2_spec. lia.
Qed.

Lemma Number_toString (n : N) : Number (toString n) = n.
Proof.
  unfold Number, toString.
  rewrite toString_fuel_value by apply log2_fuel_enough. reflexivity.
Qed.

Lemma toString_fuel_shape (fuel : nat) :
  forall n acc, fuel <> O ->
    exists d ds, is_digit d = true /\ forallb is_digit ds = true /\
                 toString_fuel fuel n acc = d :: ds ++ acc.
Proof.
  induction fuel as [|f IH]; intros n acc Hf; [congruence|].
  cbn [toString_fuel].
  assert (Hd : is_digit (48 + n mod 10) = true).
  { unfold is_digit. pose proof (N.mod_upper_bound n 10 ltac:(lia)) as Hm.
    revert Hm. generalize (n mod 10). intros m Hm.
    apply andb_true_intro; split; apply N.leb_le; lia. }
  destruct (n <? 10).
  - exists (48 + n mod 10), []. auto.
  - destruct f as [|f'].
    + exists (48 + n mod 10), []. auto.
    + destruct (IH (n / 10) ((48 + n mod 10) :: acc) ltac:(discriminate))
        as (d & ds & H1 & H2 & H3).
      exists d, (ds ++ [48 + n mod 10]). repeat split; auto.
      * rewrite forallb_app, H2. cbn [forallb andb]. now rewrite Hd.
      * rewrite H3, <- app_assoc. reflexivity.
Qed.

Lemma toString_shape (n : N) :
  exists d ds, is_digit d = true /\ forallb is_digit ds = true /\
               toString n = d :: ds.
Proof.
  destruct (toString_fuel_shape (S (N.to_nat (N.log2 n))) n [] ltac:(discriminate))
    as (d & ds & H1 & H2 & H3).
  exists d, ds. rewrite app_nil_r in H3. auto.
Qed.

Lemma toString_digits (n : N) : forallb is_digit (toString n) = true.
Proof.
  destruct (toString_shape n) as (d & ds & H1 & H2 & ->).
  cbn [forallb]. now rewrite H1, H2.
Qed.

(* ================================================================== *)
(** ** The delimiter search                                            *)
(* ================================================================== *)

Lemma under_nil o : under [] o = o.
Proof. destruct o as [[h r]|]; reflexivity. Qed.

Lemma under_app a b o : under (a ++ b) o = under a (under b o).
Proof. destruct o as [[h r]|]; simpl; [rewrite app_assoc|]; reflexivity. Qed.

Lemma splitHttp_cons (c : N) (s : jsstring) :
  splitHttp (c :: s)
  = if startsWith DELIM (c :: s) then Some ([], skipn 4 (c :: s))
    else under [c] (splitHttp s).
Proof.
  unfold splitHttp. cbn [indexOf].
  destruct (startsWith DELIM (c :: s)); [reflexivity|].
  destruct (indexOf DELIM s) as [i|]; reflexivity.
Qed.

Lemma splitHttp_nil : splitHttp [] = None.
Proof. reflexivity. Qed.

Lemma startsWith_DELIM (s : jsstring) :
  startsWith DELIM s = true <-> exists r, s = DELIM ++ r.
Proof.
  unfold DELIM, CR, LF. split.
  - destruct s as [|a [|b [|c [|d r]]]]; cbn [startsWith]; intros H;
      rewrite ?andb_false_r in H; try discriminate.
    repeat (apply andb_prop in H; destruct H as [?%N.eqb_eq H]); subst.
    now exists r.
  - intros [r ->]. reflexivity.
Qed.

Lemma startsWith_DELIM_app (s t : jsstring) :
  startsWith DELIM s = true -> startsWith DELIM (s ++ t) = true.
Proof.
  intros [r ->]%startsWith_DELIM. apply startsWith_DELIM.
  exists (r ++ t). reflexivity.
Qed.

(** [splitHttp] cuts its argument around a delimiter. *)
Lemma splitHttp_sound (s h r : jsstring) :
  splitHttp s = Some (h, r) -> s = h ++ DELIM ++ r.
Proof.
  revert h r. induction s as [|c s IH]; intros h r H; [discriminate|].
  rewrite splitHttp_cons in H.
  destruct (startsWith DELIM (c :: s)) eqn:E.
  - apply startsWith_DELIM in E as [r' E]. rewrite E in *.
    injection H as <- <-. reflexivity.
  - destruct (splitHttp s) as [[h' r']|]; [|discriminate].
    injection H as <- <-. simpl. f_equal. now apply IH.
Qed.

(** Text that arrives later never moves a delimiter already found. *)
Lemma splitHttp_app (s t h r : jsstring) :
  splitHttp s = Some (h, r) -> splitHttp (s ++ t) = Some (h, r ++ t).
Proof.
  revert h r. induction s as [|c s IH]; intros h r H; [discriminate|].
  rewrite splitHttp_cons in H. rewrite <- app_comm_cons, splitHttp_cons.
  destruct (startsWith DELIM (c :: s)) eqn:E.
  - rewrite app_comm_cons, (startsWith_DELIM_app _ t E).
    apply startsWith_DELIM in E as [r' E]. rewrite E in *.
    injection H as <- <-. reflexivity.
  - destruct (splitHttp s) as [[h' r']|] eqn:Es; [|discriminate].
    injection H as <- <-.
    assert (E' : startsWith DELIM (c :: s ++ t) = false).
    { apply splitHttp_sound in Es. subst s.
      destruct h' as [|a [|b [|d h']]]; exact E. }
    rewrite E', (IH _ _ eq_refl). reflexivity.
Qed.

(** A prefix without carriage return is stepped over. *)
Lemma splitHttp_skip (a s : jsstring) :
  forallb (fun c => negb (c =? CR)) a = true ->
  splitHttp (a ++ s) = under a (splitHttp s).
Proof.
  induction a as [|c a IH]; intros H; [now rewrite under_nil|].
  cbn [forallb] in H. apply andb_prop in H as [Hc Ha].
  rewrite <- app_comm_cons, splitHttp_cons.
  replace (startsWith DELIM (c :: a ++ s)) with false.
  - rewrite (IH Ha). now destruct (splitHttp s) as [[h r]|].
  - unfold DELIM. cbn [startsWith]. rewrite N.eqb_sym.
    apply negb_true_iff in Hc. now rewrite Hc.
Qed.

(** A delimiter found behind a prefix is the first one of what follows
    the prefix. *)
Lemma splitHttp_behind (a s h r : jsstring) :
  splitHttp (a ++ s) = Some (a ++ h, r) -> splitHttp s = Some (h, r).
Proof.
  induction a as [|c a IH]; intros H; [exact H|].
  rewrite <- !app_comm_cons, splitHttp_cons in H.
  destruct (startsWith DELIM (c :: a ++ s)); [discriminate|].
  destruct (splitHttp (a ++ s)) as [[h' r']|] eqn:E; [|discriminate].
  injection H as -> ->. now apply IH.
Qed.

Lemma splitHttp_header_length (s h r : jsstring) :
  splitHttp s = Some (h, r) ->
  (length s = length h + 4 + length r)%nat.
Proof.
  intros ->%splitHttp_sound. rewrite !length_app. simpl. lia.
Qed.

(** Replacing what follows a prefix by text that starts with neither CR
    nor LF keeps the delimiter search out of the prefix. *)
Lemma splitHttp_retarget (pre : jsstring) :
  forall x s1 y s2 h r,
    y <> CR -> y <> LF ->
    splitHttp (pre ++ x :: s1) = Some (pre ++ h, r) ->
    splitHttp (pre ++ y :: s2) = under pre (splitHttp (y :: s2)).
Proof.
  induction pre as [|c pre IH]; intros x s1 y s2 h r Hcr Hlf H.
  - now rewrite under_nil.
  - rewrite <- !app_comm_cons, splitHttp_cons in H.
    destruct (startsWith DELIM (c :: pre ++ x :: s1)) eqn:E; [discriminate|].
    destruct (splitHttp (pre ++ x :: s1)) as [[h' r']|] eqn:E'; [|discriminate].
    injection H as -> ->.
    rewrite <- app_comm_cons, splitHttp_cons.
    assert (E2 : startsWith DELIM (c :: pre ++ y :: s2) = false).
    { apply N.eqb_neq in Hcr, Hlf. rewrite N.eqb_sym in Hcr, Hlf.
      unfold DELIM in *.
      destruct pre as [|a [|b [|d pre]]]; cbn [startsWith app] in *;
        rewrite ?Hcr, ?Hlf, ?andb_false_r; auto. }
    rewrite E2, (IH _ _ _ _ _ _ Hcr Hlf E').
    now destruct (splitHttp (y :: s2)) as [[h2 r2]|].
Qed.

(** A header line appended to a header block stays before the
    delimiter. *)
Lemma splitHttp_append_line (h : jsstring) :
  forall b y t,
    y <> CR ->
    splitHttp (h ++ DELIM ++ b) = Some (h, b) ->
    splitHttp (h ++ CR :: LF :: y :: t)
    = under (h ++ [CR; LF]) (splitHttp (y :: t)).
Proof.
  induction h as [|c h IH]; intros b y t Hcr H.
  - apply N.eqb_neq in Hcr. rewrite N.eqb_sym in Hcr.
    cbn [app]. rewrite splitHttp_cons.
    assert (E : startsWith DELIM (CR :: LF :: y :: t) = false).
    { unfold DELIM. cbn [startsWith]. rewrite Hcr.
      now rewrite !andb_false_r. }
    rewrite E, splitHttp_cons.
    change (startsWith DELIM (LF :: y :: t)) with false.
    now destruct (splitHttp (y :: t)) as [[h2 r2]|].
  - rewrite <- !app_comm_cons, splitHttp_cons in H.
    destruct (startsWith DELIM (c :: h ++ DELIM ++ b)) eqn:E; [discriminate|].
    destruct (splitHttp (h ++ DELIM ++ b)) as [[h' r']|] eqn:E'; [|discriminate].
    injection H as -> ->.
    rewrite <- !app_comm_cons, splitHttp_cons.
    assert (E2 : startsWith DELIM (c :: h ++ CR :: LF :: y :: t) = false).
    { unfold DELIM in *. clear IH E'.
      destruct h as [|a [|b' [|d h]]]; cbn [startsWith app] in *.
      - change (LF =? CR) with false. now rewrite andb_false_r.
      - exact E.
      - exact E.
      - exact E. }
    rewrite E2, (IH _ _ _ Hcr E').
    now destruct (splitHttp (y :: t)) as [[h2 r2]|].
Qed.

(* ================================================================== *)
(** ** The regular expressions                                         *)
(* ================================================================== *)

Lemma span_parts (f : N -> bool) (s : jsstring) :
  fst (span f s) ++ snd (span f s) = s.
Proof.
  induction s as [|c s IH]; [reflexivity|].
  cbn [span]. destruct (f c); [|reflexivity].
  destruct (span f s) as [a b]. simpl in *. now rewrite IH.
Qed.

Lemma span_fst_all (f : N -> bool) (s : jsstring) :
  forallb f (fst (span f s)) = true.
Proof.
  induction s as [|c s IH]; [reflexivity|].
  cbn [span]. destruct (f c) eqn:E; [|reflexivity].
  destruct (span f s) as [a b]. simpl in *. now rewrite E, IH.
Qed.

Lemma span_snd_stops (f : N -> bool) (s : jsstring) :
  stops f (snd (span f s)) = true.
Proof.
  induction s as [|c s IH]; [reflexivity|].
  cbn [span]. destruct (f c) eqn:E.
  - destruct (span f s) as [a b]. exact IH.
  - simpl. now rewrite E.
Qed.

Lemma span_stops (f : N -> bool) (s : jsstring) :
  stops f s = true -> s <> [] -> span f s = ([], s).
Proof.
  destruct s as [|c s]; [congruence|]. simpl.
  intros ->%negb_true_iff _. reflexivity.
Qed.

Lemma span_all (f : N -> bool) (a t : jsstring) :
  forallb f a = true ->
  span f (a ++ t) = (a ++ fst (span f t), snd (span f t)).
Proof.
  induction a as [|c a IH]; intros H.
  - simpl. now destruct (span f t).
  - cbn [forallb] in H. apply andb_prop in H as [Hc Ha].
    rewrite <- app_comm_cons. cbn [span]. rewrite Hc, (IH Ha). reflexivity.
Qed.

Lemma span_not_all (f : N -> bool) (a t : jsstring) :
  forallb f a = false ->
  exists d q, snd (span f a) = d :: q /\ f d = false /\
              span f (a ++ t) = (fst (span f a), d :: q ++ t).
Proof.
  induction a as [|c a IH]; intros H; [discriminate|].
  cbn [forallb] in H. rewrite <- app_comm_cons. cbn [span].
  destruct (f c) eqn:E.
  - destruct (IH H) as (d & q & H1 & H2 & H3).
    exists d, q. rewrite H3. destruct (span f a) as [x y]. simpl in *.
    subst y. auto.
  - exists c, a. auto.
Qed.

Lemma match_lit_ci_self (pat s : jsstring) :
  match_lit_ci pat (pat ++ s) = Some s.
Proof.
  induction pat as [|p pat IH]; [reflexivity|].
  simpl. now rewrite N.eqb_refl.
Qed.

(** A literal matched inside [a] is matched the same way when text
    follows [a]. *)
Lemma match_lit_ci_app (pat a t r : jsstring) :
  match_lit_ci pat a = Some r -> match_lit_ci pat (a ++ t) = Some (r ++ t).
Proof.
  revert a. induction pat as [|p pat IH]; intros a H.
  - injection H as ->. reflexivity.
  - destruct a as [|c a]; [discriminate|]. cbn [match_lit_ci app] in *.
    destruct (canon p =? canon c); [now apply IH|discriminate].
Qed.

(** A literal that fails on [a] and has no character equal to [u] under
    the case folding fails on [a] followed by [u]. *)
Lemma match_lit_ci_stop (pat a : jsstring) (u : N) (t : jsstring) :
  forallb (fun p => negb (canon p =? canon u)) pat = true ->
  match_lit_ci pat a = None ->
  match_lit_ci pat (a ++ u :: t) = None.
Proof.
  revert a. induction pat as [|p pat IH]; intros a Hp H; [discriminate|].
  cbn [forallb] in Hp. apply andb_prop in Hp as [Hu Hp].
  destruct a as [|c a]; cbn [match_lit_ci app] in *.
  - apply negb_true_iff in Hu. now rewrite Hu.
  - destruct (canon p =? canon c); [now apply IH|reflexivity].
Qed.

(** A literal with no character equal to the first character of what
    follows [a]: the outcome on [a ++ x :: s1] and on [a ++ y :: s2] is
    the same when [x] and [y] fold to the same character. *)
Lemma match_lit_ci_retarget (pat : jsstring) :
  forall a x s1 y s2,
    canon x = canon y ->
    forallb (fun p => negb (canon p =? canon x)) pat = true ->
    (match_lit_ci pat (a ++ x :: s1) = None /\
     match_lit_ci pat (a ++ y :: s2) = None)
    \/ (exists a2, match_lit_ci pat (a ++ x :: s1) = Some (a2 ++ x :: s1) /\
                   match_lit_ci pat (a ++ y :: s2) = Some (a2 ++ y :: s2)).
Proof.
  induction pat as [|p pat IH]; intros a x s1 y s2 Hxy Hp.
  - right. exists a. auto.
  - cbn [forallb] in Hp. apply andb_prop in Hp as [Hu Hp].
    apply negb_true_iff in Hu.
    destruct a as [|c a]; cbn [match_lit_ci app].
    + rewrite <- Hxy, Hu. auto.
    + destruct (canon p =? canon c); [now apply IH|auto].
Qed.

Lemma match_lit_ci_sound (pat t r : jsstring) :
  match_lit_ci pat t = Some r ->
  exists m, t = m ++ r /\ length m = length pat.
Proof.
  revert t. induction pat as [|p pat IH]; intros t H.
  - injection H as ->. now exists [].
  - destruct t as [|c t]; [discriminate|]. cbn [match_lit_ci] in H.
    destruct (canon p =? canon c); [|discriminate].
    destruct (IH _ H) as (m & -> & Hm). exists (c :: m). simpl. auto.
Qed.

Lemma canon_C (x : N) :
  canon x = 67 ->
  is_space x = false /\ is_digit x = false /\ x <> CR /\ x <> LF.
Proof.
  unfold canon. destruct ((97 <=? x) && (x <=? 122)) eqn:E; intros H.
  - assert (x = 99).
    { apply andb_prop in E as [E1%N.leb_le E2]. lia. }
    subst x. repeat split; discriminate.
  - subst x. repeat split; discriminate.
Qed.

Lemma digit_not_space (d : N) : is_digit d = true -> is_space d = false.
Proof.
  unfold is_digit, is_space.
  intros [H1%N.leb_le H2%N.leb_le]%andb_prop.
  repeat match goal with
         | |- (_ || _) = false => apply orb_false_intro
         end;
    try (apply N.eqb_neq; lia);
    apply andb_false_iff;
    ((left; apply N.leb_gt; lia) || (right; apply N.leb_gt; lia)).
Qed.

Lemma lit_Content_Length :
  lit "Content-Length:" = 67 :: lit "ontent-Length:".
Proof. reflexivity. Qed.

(** The pattern matches a freshly printed header at its head. *)
Lemma reContentLength_here_fresh (d : N) (ds post : jsstring) :
  is_digit d = true -> forallb is_digit ds = true ->
  stops is_digit post = true ->
  reContentLength_here (lit "Content-Length: " ++ d :: ds ++ post)
  = Some (d :: ds, post).
Proof.
  intros Hd Hds Hpost. unfold reContentLength_here.
  change (lit "Content-Length: " ++ d :: ds ++ post)
    with (lit "Content-Length:" ++ 32 :: d :: ds ++ post).
  rewrite match_lit_ci_self. cbn [span].
  change (is_space 32) with true. cbv iota.
  rewrite (digit_not_space d Hd). cbn [snd].
  rewrite app_comm_cons, span_all by (cbn [forallb]; now rewrite Hd, Hds).
  destruct post as [|c post].
  - simpl. now rewrite app_nil_r.
  - rewrite span_stops by (auto; discriminate). simpl.
    now rewrite app_nil_r.
Qed.

Lemma reContentLength_here_sound (t ds post : jsstring) :
  reContentLength_here t = Some (ds, post) ->
  exists x m, t = x :: m ++ post /\ canon x = 67 /\ ds <> [] /\
              forallb is_digit ds = true /\ stops is_digit post = true.
Proof.
  unfold reContentLength_here.
  destruct (match_lit_ci (lit "Content-Length:") t) as [r|] eqn:E;
    [|discriminate].
  pose proof (span_parts is_space r) as Hr.
  pose proof (span_parts is_digit (snd (span is_space r))) as Hd.
  pose proof (span_fst_all is_digit (snd (span is_space r))) as Hall.
  pose proof (span_snd_stops is_digit (snd (span is_space r))) as Hstop.
  destruct (span is_digit (snd (span is_space r))) as [ds' post'].
  cbn [fst snd] in *.
  destruct ds' as [|d0 ds0]; [discriminate|]. intros H. injection H as <- <-.
  destruct (match_lit_ci_sound _ _ _ E) as (m & -> & Hm).
  destruct m as [|x m']; [discriminate|].
  rewrite lit_Content_Length in E. cbn [match_lit_ci app] in E.
  destruct (canon 67 =? canon x) eqn:Ex; [|discriminate].
  apply N.eqb_eq in Ex.
  exists x, (m' ++ fst (span is_space r) ++ d0 :: ds0).
  repeat split; auto; try discriminate.
  rewrite <- Hr at 1. rewrite <- Hd. cbn [app].
  rewrite <- !app_assoc. reflexivity.
Qed.

(** Retargeting: an attempt that starts before a match and fails keeps
    failing when the match is replaced by text with the same first
    character. *)
Lemma reContentLength_here_retarget (a : jsstring) x s1 y s2 :
  a <> [] -> canon x = 67 -> canon y = 67 ->
  reContentLength_here (a ++ x :: s1) = None ->
  reContentLength_here (a ++ y :: s2) = None.
Proof.
  intros Ha Hx Hy. destruct a as [|c a]; [congruence|].
  destruct (canon_C x Hx) as (Hxs & Hxd & _).
  destruct (canon_C y Hy) as (Hys & Hyd & _).
  unfold reContentLength_here.
  rewrite lit_Content_Length. cbn [match_lit_ci app].
  destruct (canon 67 =? canon c); [|reflexivity].
  destruct (match_lit_ci_retarget (lit "ontent-Length:") a x s1 y s2)
    as [[-> ->]|(a2 & -> & ->)];
    [congruence | rewrite Hx; reflexivity | reflexivity |].
  destruct (forallb is_space a2) eqn:Ea.
  - rewrite !span_all by assumption. cbn [span]. rewrite Hxs, Hys.
    cbn [fst snd span]. now rewrite Hxd, Hyd.
  - destruct (span_not_all is_space a2 (x :: s1) Ea) as (d & q & H1 & H2 & ->).
    destruct (span_not_all is_space a2 (y :: s2) Ea) as (d' & q' & H1' & _ & ->).
    rewrite H1 in H1'. injection H1' as <- <-.
    cbn [snd span]. destruct (is_digit d); [|reflexivity].
    destruct (span is_digit (q ++ x :: s1)). discriminate.
Qed.

(** An attempt that fails in a header block keeps failing when a line
    that starts with C is appended to the block. *)
Lemma reContentLength_here_append (a : jsstring) y t :
  canon y = 67 ->
  reContentLength_here a = None ->
  reContentLength_here (a ++ CR :: LF :: y :: t) = None.
Proof.
  intros Hy. destruct (canon_C y Hy) as (Hys & Hyd & _).
  unfold reContentLength_here.
  destruct (match_lit_ci (lit "Content-Length:") a) as [r|] eqn:E.
  - rewrite (match_lit_ci_app _ _ (CR :: LF :: y :: t) _ E).
    destruct (forallb is_space r) eqn:Er.
    + intros _. rewrite span_all by assumption. cbn [span].
      change (is_space CR) with true. change (is_space LF) with true.
      cbv iota. rewrite Hys. cbn [fst snd span]. now rewrite Hyd.
    + destruct (span_not_all is_space r (CR :: LF :: y :: t) Er)
        as (d & q & H1 & H2 & ->).
      rewrite H1. cbn [snd span]. destruct (is_digit d); [|reflexivity].
      destruct (span is_digit q). discriminate.
  - intros _. now rewrite match_lit_ci_stop.
Qed.

Lemma reContentLength_exec_sound (s : jsstring) :
  forall pre ds post,
    reContentLength_exec s = Some (pre, ds, post) ->
    exists x m, s = pre ++ x :: m ++ post /\ canon x = 67 /\ ds <> [] /\
                forallb is_digit ds = true /\ stops is_digit post = true.
Proof.
  induction s as [|c s IH]; intros pre ds post H.
  - cbn in H. discriminate.
  - cbn [reContentLength_exec] in H.
    destruct (reContentLength_here (c :: s)) as [[ds0 post0]|] eqn:E.
    + injection H as <- <- <-. exact (reContentLength_here_sound _ _ _ E).
    + destruct (reContentLength_exec s) as [[[pre' ds'] post']|] eqn:E';
        [|discriminate].
      injection H as <- <- <-.
      destruct (IH _ _ _ eq_refl) as (x & m & -> & Hrest).
      exists x, m. auto.
Qed.

(** Overwriting: the first match of the rewritten header block is the
    printed header. *)
Lemma reContentLength_exec_replace (s : jsstring) :
  forall pre ds post d ds',
    reContentLength_exec s = Some (pre, ds, post) ->
    is_digit d = true -> forallb is_digit ds' = true ->
    reContentLength_exec (pre ++ lit "Content-Length: " ++ d :: ds' ++ post)
    = Some (pre, d :: ds', post).
Proof.
  induction s as [|c s IH]; intros pre ds post d ds' H Hd Hds.
  - cbn in H. discriminate.
  - destruct (reContentLength_exec_sound _ _ _ _ H)
      as (x & m & Hs & Hx & _ & _ & Hpost).
    cbn [reContentLength_exec] in H.
    destruct (reContentLength_here (c :: s)) as [[ds0 post0]|] eqn:E.
    + injection H as <- <- <-. cbn [app].
      pose proof (reContentLength_here_fresh d ds' post0 Hd Hds Hpost) as F.
      destruct (lit "Content-Length: " ++ d :: ds' ++ post0) eqn:El;
        [discriminate|].
      cbn [reContentLength_exec]. now rewrite F.
    + destruct (reContentLength_exec s) as [[[pre' ds1] post1]|] eqn:E';
        [|discriminate].
      injection H as <- <- <-.
      rewrite <- app_comm_cons in Hs. injection Hs as Hs.
      rewrite <- app_comm_cons. cbn [reContentLength_exec].
      assert (F : reContentLength_here
                    (c :: pre' ++ lit "Content-Length: " ++ d :: ds' ++ post1)
                  = None).
      { rewrite Hs in E.
        exact (reContentLength_here_retarget (c :: pre') x (m ++ post1) 67
                 (lit "ontent-Length: " ++ d :: ds' ++ post1)
                 ltac:(discriminate) Hx eq_refl E). }
      rewrite F, (IH _ _ _ d ds' eq_refl Hd Hds). reflexivity.
Qed.

(** Appending: with no match in the header block, the first match of the
    block with the printed header appended is that header. *)
Lemma reContentLength_exec_append (h : jsstring) :
  forall d ds post,
    reContentLength_exec h = None ->
    is_digit d = true -> forallb is_digit ds = true ->
    stops is_digit post = true ->
    reContentLength_exec
      (h ++ CRLF ++ lit "Content-Length: " ++ d :: ds ++ post)
    = Some (h ++ CRLF, d :: ds, post).
Proof.
  induction h as [|c h IH]; intros d ds post H Hd Hds Hpost.
  - cbn [app CRLF]. cbn [reContentLength_exec].
    change (reContentLength_here
              (CR :: LF :: lit "Content-Length: " ++ d :: ds ++ post))
      with (@None (jsstring * jsstring)).
    change (reContentLength_here
              (LF :: lit "Content-Length: " ++ d :: ds ++ post))
      with (@None (jsstring * jsstring)).
    pose proof (reContentLength_here_fresh d ds post Hd Hds Hpost) as F.
    destruct (lit "Content-Length: " ++ d :: ds ++ post) eqn:El;
      [discriminate|].
    cbn [reContentLength_exec]. now rewrite F.
  - cbn [reContentLength_exec] in H.
    destruct (reContentLength_here (c :: h)) as [[ds0 post0]|] eqn:E;
      [discriminate|].
    destruct (reContentLength_exec h) as [[[pre' ds1] post1]|] eqn:E';
      [discriminate|].
    rewrite <- app_comm_cons. cbn [reContentLength_exec].
    assert (F : reContentLength_here
                  (c :: h ++ CRLF ++ lit "Content-Length: " ++ d :: ds ++ post)
                = None).
    { exact (reContentLength_here_append (c :: h) 67
               (lit "ontent-Length: " ++ d :: ds ++ post) eq_refl E). }
    rewrite F, (IH d ds post eq_refl Hd Hds Hpost). reflexivity.
Qed.

(* ================================================================== *)
(** ** The encoder                                                     *)
(* ================================================================== *)

Lemma scalar_values_pair (u v : N) (t : jsstring) :
  is_high u = true -> is_low v = true ->
  scalar_values (u :: v :: t)
  = (65536 + N.shiftl (u - 55296) 10 + (v - 56320)) :: scalar_values t.
Proof. intros Hu Hv. cbn [scalar_values]. now rewrite Hu, Hv. Qed.

Lemma scalar_values_lone_high (u : N) (t : jsstring) :
  is_high u = true -> stops is_low t = true ->
  scalar_values (u :: t) = REPLACEMENT :: scalar_values t.
Proof.
  intros Hu Ht. destruct t as [|v t]; cbn [scalar_values]; rewrite Hu.
  - reflexivity.
  - simpl in Ht. apply negb_true_iff in Ht. now rewrite Ht.
Qed.

Lemma scalar_values_other (u : N) (t : jsstring) :
  is_high u = false ->
  scalar_values (u :: t)
  = (if is_low u then REPLACEMENT else u) :: scalar_values t.
Proof.
  intros Hu. destruct t as [|v t]; cbn [scalar_values]; rewrite Hu;
    now destruct (is_low u).
Qed.

Lemma scalar_values_app_bounded (n : nat) :
  forall a s, (length a <= n)%nat -> stops is_low s = true ->
    scalar_values (a ++ s) = scalar_values a ++ scalar_values s.
Proof.
  induction n as [|n IH]; intros a s Hlen Hs.
  - destruct a; [reflexivity | simpl in Hlen; lia].
  - destruct a as [|u a]; [reflexivity|].
    simpl in Hlen. destruct (is_high u) eqn:Hu.
    + destruct a as [|v a].
      * cbn [app]. rewrite scalar_values_lone_high by assumption.
        now rewrite (scalar_values_lone_high u []) by auto.
      * destruct (is_low v) eqn:Hv.
        -- cbn [app]. rewrite !scalar_values_pair by assumption.
           simpl in Hlen. rewrite IH by (auto; lia). reflexivity.
        -- cbn [app].
           rewrite (scalar_values_lone_high u (v :: a ++ s))
             by (auto; simpl; now rewrite Hv).
           rewrite (scalar_values_lone_high u (v :: a))
             by (auto; simpl; now rewrite Hv).
           rewrite (app_comm_cons a s v), IH by (auto; lia). reflexivity.
    + cbn [app]. rewrite !scalar_values_other by assumption.
      rewrite IH by (auto; lia). reflexivity.
Qed.

Lemma scalar_values_app (a s : jsstring) :
  stops is_low s = true ->
  scalar_values (a ++ s) = scalar_values a ++ scalar_values s.
Proof. apply (scalar_values_app_bounded (length a)). lia. Qed.

(** Encoding distributes over a cut that does not split a surrogate
    pair. *)
Lemma encode_app (a s : jsstring) :
  stops is_low s = true -> encode (a ++ s) = encode a ++ encode s.
Proof.
  intros H. unfold encode. rewrite scalar_values_app by assumption.
  apply flat_map_app.
Qed.

Lemma encode_DELIM (b : jsstring) : encode (DELIM ++ b) = DELIM ++ encode b.
Proof. reflexivity. Qed.

(** The bytes of a text cut at a delimiter. *)
Lemma encode_around_DELIM (h b : jsstring) :
  encode (h ++ DELIM ++ b) = encode h ++ DELIM ++ encode b.
Proof. rewrite encode_app by reflexivity. now rewrite encode_DELIM. Qed.

Lemma encode_ascii (s : jsstring) :
  forallb is_ascii s = true -> encode s = s.
Proof.
  induction s as [|u s IH]; intros H; [reflexivity|].
  cbn [forallb] in H. apply andb_prop in H as [Hu Hs].
  unfold is_ascii in Hu. pose proof Hu as Hu'. apply N.ltb_lt in Hu'.
  assert (Hh : is_high u = false).
  { unfold is_high. apply andb_false_iff. left. apply N.leb_gt. lia. }
  assert (Hl : is_low u = false).
  { unfold is_low. apply andb_false_iff. left. apply N.leb_gt. lia. }
  unfold encode in *. rewrite scalar_values_other, Hl by assumption.
  cbn [flat_map]. rewrite (IH Hs). unfold utf8_of_scalar. now rewrite Hu.
Qed.

Lemma utf8_of_scalar_length (cp : N) :
  (1 <= length (utf8_of_scalar cp))%nat
  /\ (128 <= cp -> (2 <= length (utf8_of_scalar cp))%nat)
  /\ (2048 <= cp -> (3 <= length (utf8_of_scalar cp))%nat).
Proof.
  unfold utf8_of_scalar.
  destruct (N.ltb_spec cp 128); [simpl; repeat split; lia|].
  destruct (N.ltb_spec cp 2048); [simpl; repeat split; lia|].
  destruct (N.ltb_spec cp 65536); simpl; repeat split; lia.
Qed.

(** Every code unit takes at least one byte, and a text with a code unit
    of 128 or more takes more bytes than it has code units. *)
Lemma encode_length_bounded (n : nat) :
  forall s, (length s <= n)%nat ->
    (length s + (if forallb is_ascii s then 0 else 1)
     <= length (encode s))%nat.
Proof.
  unfold encode.
  induction n as [|n IH]; intros s Hlen.
  - destruct s; [simpl; lia | simpl in Hlen; lia].
  - destruct s as [|u s]; [simpl; lia|].
    simpl in Hlen. cbn [forallb length].
    destruct (is_high u) eqn:Hu.
    + assert (Hna : is_ascii u = false).
      { unfold is_high in Hu. apply andb_prop in Hu as [Hu%N.leb_le _].
        unfold is_ascii. apply N.ltb_ge. lia. }
      rewrite Hna. cbn [andb].
      destruct s as [|v s].
      * rewrite scalar_values_lone_high by auto. simpl. lia.
      * destruct (is_low v) eqn:Hv.
        -- rewrite scalar_values_pair by assumption. cbn [flat_map].
           rewrite length_app.
           pose proof (utf8_of_scalar_length
                         (65536 + N.shiftl (u - 55296) 10 + (v - 56320)))
             as (_ & _ & H3).
           specialize (H3 ltac:(lia)).
           simpl in Hlen. pose proof (IH s ltac:(lia)) as Hs.
           cbn [length]. destruct (forallb is_ascii s); lia.
        -- rewrite scalar_values_lone_high
             by (auto; simpl; now rewrite Hv).
           cbn [flat_map]. rewrite length_app.
           pose proof (IH (v :: s) ltac:(lia)) as Hs.
           change (length (utf8_of_scalar REPLACEMENT)) with 3%nat.
           destruct (forallb is_ascii (v :: s)); lia.
    + rewrite scalar_values_other by assumption. cbn [flat_map].
      rewrite length_app. pose proof (IH s ltac:(lia)) as Hs.
      destruct (is_low u) eqn:Hl.
      * change (length (utf8_of_scalar REPLACEMENT)) with 3%nat.
        destruct (is_ascii u && forallb is_ascii s),
                 (forallb is_ascii s); lia.
      * pose proof (utf8_of_scalar_length u) as (H1 & H2 & _).
        unfold is_ascii at 1. destruct (N.ltb_spec u 128).
        -- cbn [andb]. destruct (forallb is_ascii s); lia.
        -- specialize (H2 ltac:(lia)). cbn [andb].
           destruct (forallb is_ascii s); lia.
Qed.

Lemma encode_length_ge (s : jsstring) :
  (length s <= length (encode s))%nat.
Proof.
  pose proof (encode_length_bounded (length s) s ltac:(lia)).
  destruct (forallb is_ascii s); lia.
Qed.

Lemma encode_length_non_ascii (s : jsstring) :
  forallb is_ascii s = false -> (length s < length (encode s))%nat.
Proof.
  intros H. pose proof (encode_length_bounded (length s) s ltac:(lia)).
  rewrite H in *. lia.
Qed.

(* ================================================================== *)
(** ** Back-pressure: [flush]                                          *)
(* ================================================================== *)

Lemma flush_fields (n : nat) (c : Connection) :
  buffer (flush n c) = buffer c /\ history (flush n c) = history c /\
  closing (flush n c) = closing c /\
  outstanding (flush n c) = outstanding c /\ issued (flush n c) = issued c.
Proof.
  unfold flush. destruct (sink c) as [|b bs].
  - destruct (closing c) eqn:E; cbn; auto.
  - cbn. auto.
Qed.

(** [flush] hands the socket a prefix of the sink and leaves the sink
    empty: the comparison with the missing [length] never holds, so what
    the socket did not take is not written back. *)
Lemma flush_writes_prefix (n : nat) (c : Connection) :
  taken (sock (flush n c)) = taken (sock c) ++ firstn n (sink c)
  /\ sink (flush n c) = [].
Proof.
  unfold flush. destruct (sink c) as [|b bs] eqn:E.
  - rewrite firstn_nil, app_nil_r. destruct (closing c); auto.
  - cbn. auto.
Qed.

(** [end] is called by a flush exactly when the sink is empty and the
    connection is closing. *)
Lemma flush_ended (n : nat) (c : Connection) :
  ended (sock (flush n c))
  = ended (sock c)
    || (closing c && match sink c with [] => true | _ :: _ => false end).
Proof.
  unfold flush. destruct (sink c) as [|b bs].
  - destruct (closing c); cbn [sock ended andb];
      [now rewrite orb_true_r | now rewrite orb_false_r].
  - cbn [less_than chunk_length sock ended].
    now rewrite andb_false_r, orb_false_r.
Qed.

(* ================================================================== *)
(** ** Framing: the loop of [onData]                                   *)
(* ================================================================== *)

Lemma issue_all_with_buffer (ms : list jsstring) :
  forall b c, issue_all (with_buffer b c) ms = with_buffer b (issue_all c ms).
Proof.
  unfold issue_all.
  induction ms as [|m ms IH]; intros b c; [reflexivity|].
  cbn [map fold_left]. exact (IH b (handleRequest c (encode m))).
Qed.

Lemma issue_all_fields (ms : list jsstring) :
  forall c,
    sock (issue_all c ms) = sock c /\ sink (issue_all c ms) = sink c /\
    closing (issue_all c ms) = closing c /\
    buffer (issue_all c ms) = buffer c /\
    outstanding (issue_all c ms)
    = outstanding c ++ calls_from (issued c) ms /\
    issued (issue_all c ms) = (issued c + length ms)%nat.
Proof.
  unfold issue_all.
  induction ms as [|m ms IH]; intros c.
  - cbn. rewrite app_nil_r, Nat.add_0_r. repeat split; reflexivity.
  - cbn [map fold_left calls_from length].
    destruct (IH (handleRequest c (encode m))) as (H1 & H2 & H3 & H4 & H5 & H6).
    rewrite H1, H2, H3, H4, H5, H6. cbn.
    rewrite <- app_assoc, Nat.add_succ_r. repeat split; reflexivity.
Qed.

(** The loop frames what [frames] frames, issues one responder call per
    framed request as it goes, and leaves the rest in the buffer. *)
Lemma onData_loop_frames (fuel : nat) :
  forall c,
    onData_loop fuel c
    = match frames fuel (buffer c) with
      | Some (ms, b) => Some (with_buffer b (issue_all c ms))
      | None => None
      end.
Proof.
  induction fuel as [|fuel IH]; intros c; [reflexivity|].
  cbn [onData_loop frames].
  destruct (splitHttp (buffer c)) as [[hdrs rest]|].
  2:{ unfold issue_all, with_buffer. now destruct c. }
  set (bodyLen := match reContentLength_exec hdrs with
                  | Some (_, ds, _) => Number ds
                  | None => 0
                  end).
  destruct (N.of_nat (length rest) <? bodyLen).
  { unfold issue_all, with_buffer. now destruct c. }
  set (k := (length hdrs + 4 + N.to_nat bodyLen)%nat).
  rewrite IH. cbn [handleRequest buffer].
  destruct (frames fuel (slice_from k (buffer c))) as [[ms b]|]; [|reflexivity].
  f_equal.
  change (issue_all c (slice_to k (buffer c) :: ms))
    with (issue_all (handleRequest c (encode (slice_to k (buffer c)))) ms).
  rewrite <- !issue_all_with_buffer. reflexivity.
Qed.

(** The loop terminates: a buffer of length below [fuel] is framed
    within [fuel] turns, and more fuel changes nothing. *)
Lemma frames_fuel (f1 : nat) :
  forall f2 buf,
    (length buf < f1)%nat -> (length buf < f2)%nat ->
    frames f1 buf = frames f2 buf /\ frames f1 buf <> None.
Proof.
  induction f1 as [|f1 IH]; intros f2 buf H1 H2; [lia|].
  destruct f2 as [|f2]; [lia|].
  cbn [frames].
  destruct (splitHttp buf) as [[hdrs rest]|] eqn:E; [|split; congruence].
  set (bodyLen := match reContentLength_exec hdrs with
                  | Some (_, ds, _) => Number ds
                  | None => 0
                  end).
  destruct (N.of_nat (length rest) <? bodyLen); [split; congruence|].
  apply splitHttp_header_length in E.
  set (k := (length hdrs + 4 + N.to_nat bodyLen)%nat).
  assert (Hk : (length (slice_from k buf) < f1)%nat
               /\ (length (slice_from k buf) < f2)%nat).
  { unfold slice_from. rewrite length_skipn. lia. }
  destruct Hk as [K1 K2].
  destruct (IH f2 (slice_from k buf) K1 K2) as [Heq Hne].
  rewrite <- Heq.
  destruct (frames f1 (slice_from k buf)) as [[ms b]|]; [|congruence].
  split; congruence.
Qed.

Lemma frames_total (buf : jsstring) :
  exists ms b, frames (S (length buf)) buf = Some (ms, b).
Proof.
  destruct (frames_fuel (S (length buf)) (S (length buf)) buf) as [_ H];
    try lia.
  destruct (frames (S (length buf)) buf) as [[ms b]|]; [|congruence].
  now exists ms, b.
Qed.

(** The loop of [onData] returns: the fuel [onData] gives it is never
    used up. *)
Lemma onData_loop_total (c : Connection) :
  exists c', onData_loop (S (length (buffer c))) c = Some c'.
Proof.
  rewrite onData_loop_frames.
  destruct (frames_total (buffer c)) as (ms & b & ->). eauto.
Qed.

(** [onData] as framing followed by the issue of the calls. *)
Lemma onData_frames (chunk : Uint8Array) (c : Connection) :
  exists ms b,
    frames (S (length (buffer c ++ decode chunk))) (buffer c ++ decode chunk)
    = Some (ms, b)
    /\ onData chunk c = with_buffer b (issue_all c ms).
Proof.
  destruct (frames_total (buffer c ++ decode chunk)) as (ms & b & H).
  exists ms, b. split; [exact H|].
  unfold onData. rewrite onData_loop_frames. cbn [buffer]. rewrite H.
  change (mkConnection (sock c) (buffer c ++ decode chunk) (sink c)
            (history c) (closing c) (outstanding c) (issued c))
    with (with_buffer (buffer c ++ decode chunk) c).
  rewrite issue_all_with_buffer. reflexivity.
Qed.

(* ================================================================== *)
(** ** The close directive                                             *)
(* ================================================================== *)

Lemma reConnectionClose_here_app (a t : jsstring) :
  reConnectionClose_here a = true -> reConnectionClose_here (a ++ t) = true.
Proof.
  unfold reConnectionClose_here.
  destruct (match_lit_ci (lit "Connection:") a) as [r|] eqn:E; [|discriminate].
  rewrite (match_lit_ci_app _ _ t _ E).
  destruct (match_lit_ci (lit "close") (snd (span is_space r))) as [r2|] eqn:E2;
    [|discriminate].
  intros _. destruct (forallb is_space r) eqn:Er.
  - pose proof (span_all is_space r [] Er) as H.
    rewrite app_nil_r in H. rewrite H in E2. cbn in E2. discriminate.
  - destruct (span_not_all is_space r t Er) as (d & q & H1 & _ & ->).
    rewrite H1 in E2. cbn [snd]. rewrite app_comm_cons.
    now rewrite (match_lit_ci_app _ _ t _ E2).
Qed.

(** A match in a part of the text is a match in the text. *)
Lemma reConnectionClose_test_app_l (a t : jsstring) :
  reConnectionClose_test a = true -> reConnectionClose_test (a ++ t) = true.
Proof.
  induction a as [|c a IH]; intros H.
  - cbn in H. discriminate.
  - cbn [reConnectionClose_test] in H. apply orb_prop in H.
    rewrite <- app_comm_cons. cbn [reConnectionClose_test].
    destruct H as [H|H].
    + rewrite app_comm_cons, (reConnectionClose_here_app _ t H). reflexivity.
    + rewrite (IH H). apply orb_true_r.
Qed.

Lemma reConnectionClose_test_app_r (a t : jsstring) :
  reConnectionClose_test t = true -> reConnectionClose_test (a ++ t) = true.
Proof.
  intros H. induction a as [|c a IH]; [exact H|].
  rewrite <- app_comm_cons. cbn [reConnectionClose_test].
  rewrite IH. apply orb_true_r.
Qed.

(* ================================================================== *)
(** ** The synthesized error response                                  *)
(* ================================================================== *)

Lemma errorResponse_headers (msg : jsstring) :
  errorResponse msg = errorHeaders (length msg) ++ DELIM ++ msg.
Proof.
  unfold errorResponse, errorHeaders. now rewrite <- !app_assoc.
Qed.

Lemma digits_no_CR (ds : jsstring) :
  forallb is_digit ds = true ->
  forallb (fun c => negb (c =? CR)) ds = true.
Proof.
  induction ds as [|d ds IH]; [reflexivity|]. cbn [forallb].
  intros [Hd Hds]%andb_prop. rewrite (IH Hds), andb_true_r.
  unfold is_digit in Hd. apply andb_prop in Hd as [H1%N.leb_le _].
  apply negb_true_iff, N.eqb_neq. unfold CR. lia.
Qed.

(** A line without carriage return, ended by CR LF and followed by a
    character other than CR, is stepped over by the delimiter search. *)
Lemma splitHttp_line (a : jsstring) (y : N) (t : jsstring) :
  forallb (fun c => negb (c =? CR)) a = true -> y <> CR ->
  splitHttp (a ++ CR :: LF :: y :: t)
  = under (a ++ [CR; LF]) (splitHttp (y :: t)).
Proof.
  intros Ha Hy. rewrite splitHttp_skip by assumption.
  apply N.eqb_neq in Hy. rewrite N.eqb_sym in Hy.
  rewrite splitHttp_cons.
  assert (E : startsWith DELIM (CR :: LF :: y :: t) = false).
  { unfold DELIM. cbn [startsWith]. rewrite Hy. now rewrite !andb_false_r. }
  rewrite E, splitHttp_cons.
  change (startsWith DELIM (LF :: y :: t)) with false.
  destruct (splitHttp (y :: t)) as [[h r]|]; cbn; [|reflexivity].
  now rewrite <- app_assoc.
Qed.

Lemma splitHttp_at_DELIM (a b : jsstring) :
  forallb (fun c => negb (c =? CR)) a = true ->
  splitHttp (a ++ DELIM ++ b) = Some (a, b).
Proof.
  intros Ha. rewrite splitHttp_skip by assumption.
  cbn. now rewrite app_nil_r.
Qed.

(** The body of the error response is the message, whatever it
    contains. *)
Lemma splitHttp_errorResponse (msg : jsstring) :
  splitHttp (errorResponse msg) = Some (errorHeaders (length msg), msg).
Proof.
  rewrite errorResponse_headers. unfold errorHeaders.
  set (ds := toString (N.of_nat (length msg))).
  pose proof (digits_no_CR ds (toString_digits _)) as Hds.
  rewrite <- !app_assoc.
  change (CRLF ++ lit "Content-Type: text/plain; charset=utf-8" ++ CRLF ++
          lit "Content-Length: " ++ ds ++ CRLF ++ lit "Connection: close"
          ++ DELIM ++ msg)
    with (CR :: LF :: 67 ::
          (lit "ontent-Type: text/plain; charset=utf-8" ++ CRLF ++
           lit "Content-Length: " ++ ds ++ CRLF ++ lit "Connection: close"
           ++ DELIM ++ msg)).
  rewrite splitHttp_line by (reflexivity || discriminate).
  change (67 :: lit "ontent-Type: text/plain; charset=utf-8" ++ CRLF ++
          lit "Content-Length: " ++ ds ++ CRLF ++ lit "Connection: close"
          ++ DELIM ++ msg)
    with (lit "Content-Type: text/plain; charset=utf-8" ++
          CR :: LF :: 67 :: (lit "ontent-Length: " ++ ds ++ CRLF ++
                             lit "Connection: close" ++ DELIM ++ msg)).
  rewrite splitHttp_line by (reflexivity || discriminate).
  change (67 :: lit "ontent-Length: " ++ ds ++ CRLF ++
          lit "Connection: close" ++ DELIM ++ msg)
    with (lit "Content-Length: " ++ ds ++
          CR :: LF :: 67 :: (lit "onnection: close" ++ DELIM ++ msg)).
  rewrite app_assoc.
  rewrite splitHttp_line
    by (try discriminate; rewrite forallb_app, Hds; reflexivity).
  change (67 :: lit "onnection: close" ++ DELIM ++ msg)
    with (lit "Connection: close" ++ DELIM ++ msg).
  rewrite splitHttp_at_DELIM by reflexivity.
  cbn [under]. rewrite <- !app_assoc. reflexivity.
Qed.

(** A reader of the error response's header block finds the number of
    code units of the message as its declared length. *)
Lemma declaredLength_errorHeaders (n : nat) :
  declaredLength (errorHeaders n) = Some (N.of_nat n).
Proof.
  unfold declaredLength, errorHeaders.
  destruct (toString_shape (N.of_nat n)) as (d & ds & Hd & Hds & E).
  pose proof (Number_toString (N.of_nat n)) as HN.
  rewrite E in *.
  pose proof (reContentLength_exec_append
                (lit "HTTP/1.1 500 Internal Server Error" ++ CRLF
                 ++ lit "Content-Type: text/plain; charset=utf-8")
                d ds (CRLF ++ lit "Connection: close")
                eq_refl Hd Hds eq_refl) as H.
  align_exec H. rewrite H, HN. reflexivity.
Qed.

(* ================================================================== *)
(** ** Post-processing of the responder's text                         *)
(* ================================================================== *)

Lemma normalizeOutput_split (out h b : jsstring) :
  splitHttp out = Some (h, b) ->
  normalizeOutput out = safeContentLength h b ++ DELIM ++ b.
Proof.
  unfold splitHttp, normalizeOutput.
  destruct (indexOf DELIM out) as [i|]; [|discriminate].
  intros H. injection H as <- <-. reflexivity.
Qed.

Lemma normalizeOutput_no_delimiter (out : jsstring) :
  splitHttp out = None -> normalizeOutput out = out.
Proof.
  unfold splitHttp, normalizeOutput.
  destruct (indexOf DELIM out) as [i|]; [discriminate|reflexivity].
Qed.

Lemma printed_header_no_CR (n : N) :
  forallb (fun c => negb (c =? CR)) (lit "Content-Length: " ++ toString n)
  = true.
Proof.
  rewrite forallb_app, (digits_no_CR _ (toString_digits n)). reflexivity.
Qed.

(** The rewritten header block still ends at the first delimiter of the
    text, and the body behind it is the responder's body. *)
Lemma safeContentLength_split (h b : jsstring) :
  splitHttp (h ++ DELIM ++ b) = Some (h, b) ->
  splitHttp (safeContentLength h b ++ DELIM ++ b)
  = Some (safeContentLength h b, b).
Proof.
  intros H. unfold safeContentLength.
  set (len := N.of_nat (length (encode b))).
  pose proof (printed_header_no_CR len) as HX.
  destruct (reContentLength_exec h) as [[[pre ds] post]|] eqn:E.
  - destruct (reContentLength_exec_sound _ _ _ _ E)
      as (x & m & Hh & Hx & _).
    rewrite Hh in H.
    assert (H1 : splitHttp (pre ++ x :: (m ++ post ++ DELIM ++ b))
                 = Some (pre ++ x :: m ++ post, b)).
    { replace (pre ++ x :: m ++ post ++ DELIM ++ b)
        with ((pre ++ x :: m ++ post) ++ DELIM ++ b); [exact H|].
      rewrite <- !app_assoc. cbn [app]. now rewrite <- !app_assoc. }
    assert (H2 : splitHttp (post ++ DELIM ++ b) = Some (post, b)).
    { apply (splitHttp_behind (pre ++ x :: m)).
      replace ((pre ++ x :: m) ++ post ++ DELIM ++ b)
        with (pre ++ x :: m ++ post ++ DELIM ++ b)
        by (now rewrite <- app_assoc).
      replace ((pre ++ x :: m) ++ post) with (pre ++ x :: m ++ post)
        by (now rewrite <- app_assoc).
      exact H1. }
    pose proof (splitHttp_retarget pre x (m ++ post ++ DELIM ++ b) 67
                  (lit "ontent-Length: " ++ toString len ++ post ++ DELIM ++ b)
                  (x :: m ++ post) b
                  ltac:(discriminate) ltac:(discriminate) H1) as H3.
    rewrite <- !app_assoc.
    change (lit "Content-Length: " ++ toString len ++ post ++ DELIM ++ b)
      with (67 :: lit "ontent-Length: " ++ toString len ++ post ++ DELIM ++ b).
    rewrite H3.
    change (67 :: lit "ontent-Length: " ++ toString len ++ post ++ DELIM ++ b)
      with (lit "Content-Length: " ++ toString len ++ post ++ DELIM ++ b).
    rewrite (app_assoc (lit "Content-Length: ")).
    rewrite splitHttp_skip, H2 by assumption.
    cbn [under]. rewrite <- !app_assoc. reflexivity.
  - rewrite <- !app_assoc.
    change (CRLF ++ lit "Content-Length: " ++ toString len ++ DELIM ++ b)
      with (CR :: LF :: 67 ::
            lit "ontent-Length: " ++ toString len ++ DELIM ++ b).
    rewrite (splitHttp_append_line h b 67 _ ltac:(discriminate) H).
    change (67 :: lit "ontent-Length: " ++ toString len ++ DELIM ++ b)
      with (lit "Content-Length: " ++ toString len ++ DELIM ++ b).
    rewrite (app_assoc (lit "Content-Length: ")).
    rewrite splitHttp_at_DELIM by assumption.
    cbn [under]. rewrite <- !app_assoc. reflexivity.
Qed.

(** A reader of the rewritten header block finds the byte length of the
    body as its declared length. *)
Lemma safeContentLength_declared (h b : jsstring) :
  declaredLength (safeContentLength h b)
  = Some (N.of_nat (length (encode b))).
Proof.
  unfold declaredLength, safeContentLength.
  set (len := N.of_nat (length (encode b))).
  destruct (toString_shape len) as (d & ds & Hd & Hds & E).
  pose proof (Number_toString len) as HN. rewrite E in *.
  destruct (reContentLength_exec h) as [[[pre ds0] post]|] eqn:Eh.
  - pose proof (reContentLength_exec_replace h pre ds0 post d ds Eh Hd Hds)
      as H.
    align_exec H. now rewrite H, HN.
  - pose proof (reContentLength_exec_append h d ds [] Eh Hd Hds eq_refl) as H.
    rewrite app_nil_r in H. align_exec H. now rewrite H, HN.
Qed.

(* ================================================================== *)
(** ** Content-Length of the emitted response                          *)
(* ================================================================== *)

(** What the rewrite achieves.  For a responder output with a delimiter,
    the text written to the sink is the rewritten header block, the
    delimiter and the responder's body; the header block ends at the first
    delimiter of that text; the first match of the pattern in it, wherever
    in the header block it stands, carries the byte length of the body
    sent after the delimiter; and that match was overwritten where the
    pattern matched before and appended otherwise. *)
Theorem normalizeOutput_content_length (out h b : jsstring) :
  splitHttp out = Some (h, b) ->
  normalizeOutput out = safeContentLength h b ++ DELIM ++ b
  /\ splitHttp (normalizeOutput out) = Some (safeContentLength h b, b)
  /\ declaredLength (safeContentLength h b)
     = Some (N.of_nat (length (encode b)))
  /\ encode (normalizeOutput out)
     = encode (safeContentLength h b) ++ DELIM ++ encode b
  /\ match reContentLength_exec h with
     | Some (pre, _, post) =>
         safeContentLength h b
         = pre ++ lit "Content-Length: "
             ++ toString (N.of_nat (length (encode b))) ++ post
     | None =>
         safeContentLength h b
         = h ++ CRLF ++ lit "Content-Length: "
             ++ toString (N.of_nat (length (encode b)))
     end.
Proof.
  intros H. pose proof (normalizeOutput_split _ _ _ H) as E.
  pose proof (splitHttp_sound _ _ _ H) as Hout. subst out.
  rewrite E. repeat split.
  - now apply safeContentLength_split.
  - apply safeContentLength_declared.
  - apply encode_around_DELIM.
  - unfold safeContentLength.
    destruct (reContentLength_exec h) as [[[pre ds] post]|]; reflexivity.
Qed.

(** The example of the spec: Content-Length: 999 over the body pong. *)
Lemma normalizeOutput_content_length_witness :
  normalizeOutput response_999
  = lit "HTTP/1.1 200 OK" ++ CRLF ++ lit "Content-Length: 4" ++ DELIM
      ++ lit "pong"
  /\ declaredLength (safeContentLength headers_999 (lit "pong")) = Some 4.
Proof.
  destruct (normalizeOutput_content_length response_999 headers_999
              (lit "pong") eq_refl) as (H1 & _ & H3 & _).
  split; [exact H1 | exact H3].
Defined.

(** C3 at the failing inputs.  The pattern is not tied to the start of a
    header line and only its first match is replaced.  With a header
    X-Content-Length before the header Content-Length: 999, the former is
    rewritten to the body's four bytes and the response goes out with
    Content-Length: 999 over the body pong; with X-Content-Length alone no
    Content-Length header is appended; with the header twice the second
    one keeps its value 6. *)
Theorem content_length_left_mismatched :
  normalizeOutput x_header_response
  = lit "HTTP/1.1 200 OK" ++ CRLF ++ lit "X-Content-Length: 4" ++ CRLF
      ++ lit "Content-Length: 999" ++ DELIM ++ lit "pong"
  /\ normalizeOutput x_only_response
     = lit "HTTP/1.1 200 OK" ++ CRLF ++ lit "X-Content-Length: 4" ++ DELIM
         ++ lit "pong"
  /\ normalizeOutput duplicate_header_response
     = lit "HTTP/1.1 200 OK" ++ CRLF ++ lit "Content-Length: 4" ++ CRLF
         ++ lit "Content-Length: 6" ++ DELIM ++ lit "pong"
  /\ length (encode (lit "pong")) = 4%nat.
Proof. repeat split. Qed.

(** C10.  The error response declares the number of UTF-16 code units of
    the message as its Content-Length, while the body sent after the
    delimiter is the UTF-8 encoding of the message: the two lengths are
    equal for an all-ASCII message, and the declared one is strictly the
    smaller as soon as the message has a non-ASCII code unit. *)
Theorem errorResponse_declares_code_units (e : Thrown) :
  splitHttp (errorResponse (errorMessage e))
  = Some (errorHeaders (length (errorMessage e)), errorMessage e)
  /\ declaredLength (errorHeaders (length (errorMessage e)))
     = Some (N.of_nat (length (errorMessage e)))
  /\ encode (errorResponse (errorMessage e))
     = encode (errorHeaders (length (errorMessage e))) ++ DELIM
         ++ encode (errorMessage e)
  /\ if forallb is_ascii (errorMessage e)
     then length (encode (errorMessage e)) = length (errorMessage e)
     else (length (errorMessage e) < length (encode (errorMessage e)))%nat.
Proof.
  repeat split.
  - apply splitHttp_errorResponse.
  - apply declaredLength_errorHeaders.
  - rewrite errorResponse_headers. apply encode_around_DELIM.
  - destruct (forallb is_ascii (errorMessage e)) eqn:E.
    + now rewrite encode_ascii.
    + now apply encode_length_non_ascii.
Qed.

(* ================================================================== *)
(** ** Steps of a connection                                           *)
(* ================================================================== *)

Lemma settle_fields (id : nat) (c c' : Connection) :
  settle id c = Some c' ->
  sock c' = sock c /\ sink c' = sink c /\ closing c' = closing c /\
  history c' = history c /\ buffer c' = buffer c.
Proof.
  unfold settle. destruct (remove_call id (outstanding c)); [|discriminate].
  intros H. injection H as <-. cbn. auto.
Qed.

Lemma onData_fields (chunk : Uint8Array) (c : Connection) :
  sock (onData chunk c) = sock c /\ sink (onData chunk c) = sink c /\
  closing (onData chunk c) = closing c.
Proof.
  destruct (onData_frames chunk c) as (ms & b & _ & ->).
  destruct (issue_all_fields ms c) as (H1 & H2 & H3 & _).
  cbn. auto.
Qed.

(** What the handler of a settled call offers to the socket: what the
    sink held followed by the response, of which the socket takes a
    prefix; the sink is empty afterwards. *)
Lemma handleRequest_fulfilled_writes
  (n : nat) (output_text : jsstring) (c : Connection) :
  taken (sock (handleRequest_fulfilled n output_text c))
  = taken (sock c)
      ++ firstn n (sink c ++ encode (normalizeOutput output_text))
  /\ sink (handleRequest_fulfilled n output_text c) = [].
Proof. unfold handleRequest_fulfilled. apply flush_writes_prefix. Qed.

Lemma handleRequest_rejected_writes (n : nat) (e : Thrown) (c : Connection) :
  taken (sock (handleRequest_rejected n e c))
  = taken (sock c)
      ++ firstn n (sink c ++ encode (errorResponse (errorMessage e)))
  /\ sink (handleRequest_rejected n e c) = [].
Proof. unfold handleRequest_rejected. apply flush_writes_prefix. Qed.

(** A partial write loses the rest for good: after a write that takes [n]
    bytes of what is pending, no number of drains hands the socket
    anything more. *)
Lemma partial_write_drops_rest (ns : list nat) :
  forall c,
    sink c = [] ->
    taken (sock (fold_left (fun k x => onDrain x k) ns c)) = taken (sock c)
    /\ sink (fold_left (fun k x => onDrain x k) ns c) = [].
Proof.
  induction ns as [|x ns IH]; intros c Hs; [now split|].
  cbn [fold_left]. unfold onDrain at 2 4.
  destruct (flush_writes_prefix x c) as (W1 & W2).
  destruct (IH (flush x c) W2) as (A & B).
  rewrite A, B, W1, Hs, firstn_nil, app_nil_r. now split.
Qed.

(** C5 at the failing input: the responder throws and the socket takes
    only the first ten bytes of the error response.  The rest of the
    response is not kept in the sink, the connection is closing, and the
    next drain ends the socket: the socket is ended although only ten of
    the response's bytes were handed to it. *)
Theorem socket_ended_with_response_truncated :
  closing after_partial_error = true
  /\ ended (sock after_partial_error) = false
  /\ sink after_partial_error = []
  /\ taken (sock after_partial_error) = ascii_bytes "HTTP/1.1 5"
  /\ ended (sock (step after_partial_error (EvDrain 0))) = true
  /\ taken (sock (step after_partial_error (EvDrain 0)))
     = ascii_bytes "HTTP/1.1 5"
  /\ firstn 10 (encode (errorResponse (lit "boom"))) = ascii_bytes "HTTP/1.1 5"
  /\ length (encode (errorResponse (lit "boom"))) = 121%nat.
Proof. repeat split. Qed.

(* ================================================================== *)
(** ** Responder failure                                               *)
(* ================================================================== *)

Lemma errorHeaders_close (n : nat) :
  reConnectionClose_test (errorHeaders n) = true.
Proof.
  unfold errorHeaders. rewrite !app_assoc.
  now apply reConnectionClose_test_app_r.
Qed.

(** C9.  When an outstanding responder call is rejected, the handler
    writes one response behind what the sink holds and flushes: the
    socket is offered the sink's bytes followed by exactly that response
    and takes the first [n] of them.  The text of the response starts
    with the status line HTTP/1.1 500 Internal Server Error, its header
    block ends with a Connection: close header, and its body, everything
    after the first delimiter, is the message of the thrown error (the
    fixed text for a thrown value that is not an Error).  The connection
    is closing afterwards, the call is no longer outstanding and no
    responder turn is added to the history.  No other event makes the
    connection send text of its own: data sends nothing, a drain sends
    only what the sink held, and a fulfilled call sends only what the
    sink held followed by the responder's normalised text. *)
Theorem responder_failure_synthesizes_500
  (c c' : Connection) (id : nat) (e : Thrown) (n : nat) :
  settle id c = Some c' ->
  taken (sock (step c (EvReject id e n)))
  = taken (sock c)
      ++ firstn n (sink c ++ encode (errorResponse (errorMessage e)))
  /\ errorResponse (errorMessage e)
     = lit "HTTP/1.1 500 Internal Server Error" ++ CRLF
         ++ lit "Content-Type: text/plain; charset=utf-8" ++ CRLF
         ++ lit "Content-Length: "
         ++ toString (N.of_nat (length (errorMessage e))) ++ CRLF
         ++ lit "Connection: close" ++ DELIM ++ errorMessage e
  /\ splitHttp (errorResponse (errorMessage e))
     = Some (errorHeaders (length (errorMessage e)), errorMessage e)
  /\ reConnectionClose_test (errorHeaders (length (errorMessage e))) = true
  /\ match e with
     | ThrownError m => errorMessage e = m
     | ThrownOther => errorMessage e = lit "LLM proxy error"
     end
  /\ closing (step c (EvReject id e n)) = true
  /\ history (step c (EvReject id e n)) = history c
  /\ outstanding (step c (EvReject id e n)) = outstanding c'
  /\ (forall chunk,
        taken (sock (step c (EvData chunk))) = taken (sock c)
        /\ sink (step c (EvData chunk)) = sink c)
  /\ (forall k,
        taken (sock (step c (EvDrain k)))
        = taken (sock c) ++ firstn k (sink c))
  /\ (forall id' output_text k,
        taken (sock (step c (EvFulfil id' output_text k))) = taken (sock c)
        \/ taken (sock (step c (EvFulfil id' output_text k)))
           = taken (sock c)
               ++ firstn k (sink c ++ encode (normalizeOutput output_text))).
Proof.
  intros H. destruct (settle_fields _ _ _ H) as (Hs & Hk & Hc & Hh & Hb).
  cbn [step]. rewrite H.
  destruct (handleRequest_rejected_writes n e c') as (W1 & _).
  rewrite W1, Hs, Hk. unfold handleRequest_rejected.
  match goal with
  | |- context [flush n ?k] =>
      destruct (flush_fields n k) as (F1 & F2 & F3 & F4 & F5)
  end.
  rewrite F2, F3, F4.
  cbn [sink_write sock sink history closing outstanding taken].
  rewrite Hh.
  repeat split.
  - apply splitHttp_errorResponse.
  - apply errorHeaders_close.
  - now destruct e.
  - now destruct (onData_fields chunk c) as (-> & _).
  - now destruct (onData_fields chunk c) as (_ & -> & _).
  - intros k. unfold onDrain. now destruct (flush_writes_prefix k c).
  - intros id' out k. destruct (settle id' c) as [c2|] eqn:E; [right|now left].
    destruct (settle_fields _ _ _ E) as (Hs2 & Hk2 & _).
    destruct (handleRequest_fulfilled_writes k out c2) as (W & _).
    now rewrite W, Hs2, Hk2.
Qed.

(** The responder throws on the first request of a connection. *)
Lemma responder_failure_synthesizes_500_witness :
  closing (step (onData ping_request (open fresh_socket))
             (EvReject 0 (ThrownError (lit "boom")) 1000)) = true
  /\ taken (sock (step (onData ping_request (open fresh_socket))
                    (EvReject 0 (ThrownError (lit "boom")) 1000)))
     = encode (errorResponse (lit "boom")).
Proof.
  destruct (responder_failure_synthesizes_500
              (onData ping_request (open fresh_socket))
              (with_buffer [] (mkConnection fresh_socket []
                 [] [mkChatMessage user (decode ping_request)] false [] 1))
              0 (ThrownError (lit "boom")) 1000 eq_refl)
    as (H2 & _ & _ & _ & _ & H1 & _).
  split; [exact H1 | exact H2].
Defined.

(* ================================================================== *)
(** ** Partial writes and drain                                        *)
(* ================================================================== *)

(** C6 at the failing input: four bytes are written to the sink and the
    write takes the first two.  The other two are not written back to the
    sink: the drain that follows finds the sink empty and hands the
    socket nothing, so the socket has taken bytes 1 and 2 only and bytes
    3 and 4 are lost. *)
Theorem partial_write_loses_remainder :
  taken (sock (flush 2 (sink_write [1; 2; 3; 4] (open fresh_socket))))
  = [1; 2]
  /\ sink (flush 2 (sink_write [1; 2; 3; 4] (open fresh_socket))) = []
  /\ taken (sock (onDrain 2 (flush 2 (sink_write [1; 2; 3; 4]
                                        (open fresh_socket)))))
     = [1; 2]
  /\ sink (onDrain 2 (flush 2 (sink_write [1; 2; 3; 4]
                                 (open fresh_socket)))) = []
  /\ less_than 2 (chunk_length [1; 2; 3; 4]) = false.
Proof. repeat split. Qed.

(* ================================================================== *)
(** ** The close directive of a response                               *)
(* ================================================================== *)

(** C4, as the code has it.  After the post-processing of a responder
    output the connection is closing exactly when it was closing before
    or the pattern Connection:\s*close matches, ignoring case, somewhere
    in the whole processed text; in particular a match in the header block
    sets it, and so does a match that occurs only in the body. *)
Theorem closeIntent_follows_whole_text
  (c : Connection) (n : nat) (output_text : jsstring) :
  closing (handleRequest_fulfilled n output_text c)
  = (reConnectionClose_test (normalizeOutput output_text) || closing c)
  /\ forall h b,
       normalizeOutput output_text = h ++ DELIM ++ b ->
       reConnectionClose_test h = true \/ reConnectionClose_test b = true ->
       closing (handleRequest_fulfilled n output_text c) = true.
Proof.
  assert (E : closing (handleRequest_fulfilled n output_text c)
              = (reConnectionClose_test (normalizeOutput output_text)
                 || closing c)).
  { unfold handleRequest_fulfilled.
    match goal with
    | |- context [flush n ?k] =>
        destruct (flush_fields n k) as (_ & _ & -> & _)
    end.
    cbn [closing].
    now destruct (reConnectionClose_test (normalizeOutput output_text)). }
  split; [exact E|].
  intros h b Hout [H|H]; rewrite E, Hout.
  - now rewrite (reConnectionClose_test_app_l _ _ H).
  - now rewrite app_assoc, (reConnectionClose_test_app_r _ _ H).
Qed.

(** A response with the directive in its body only. *)
Lemma closeIntent_follows_whole_text_witness :
  closing (handleRequest_fulfilled 0 body_close_response
             (open fresh_socket)) = true.
Proof.
  exact (proj2 (closeIntent_follows_whole_text (open fresh_socket) 0
                  body_close_response)
           (lit "HTTP/1.1 200 OK" ++ CRLF ++ lit "Content-Type: text/plain"
            ++ CRLF ++ lit "Content-Length: 17")
           (lit "Connection: close") eq_refl (or_intror eq_refl)).
Defined.

(** C4, as the spec has it, fails: the directive occurs only in the body
    of the response, its header block has no match, and the connection is
    closing after the response was processed. *)
Lemma close_directive_in_body_sets_closeIntent :
  splitHttp (normalizeOutput body_close_response)
  = Some (lit "HTTP/1.1 200 OK" ++ CRLF ++ lit "Content-Type: text/plain"
          ++ CRLF ++ lit "Content-Length: 17",
          lit "Connection: close")
  /\ reConnectionClose_test
       (lit "HTTP/1.1 200 OK" ++ CRLF ++ lit "Content-Type: text/plain"
        ++ CRLF ++ lit "Content-Length: 17") = false
  /\ closing (onData ping_request (open fresh_socket)) = false
  /\ closing (run (open fresh_socket)
                [EvData ping_request; EvFulfil 0 body_close_response 0])
     = true.
Proof. repeat split. Qed.

(* ================================================================== *)
(** ** Pipelined requests and responder calls                          *)
(* ================================================================== *)

Lemma remove_call_In (id : nat) (cs : list Call) :
  match remove_call id cs with
  | Some _ => In id (map call_id cs)
  | None => ~ In id (map call_id cs)
  end.
Proof.
  induction cs as [|k cs IH]; cbn [remove_call map In]; [tauto|].
  destruct (Nat.eqb_spec (call_id k) id) as [E|E]; [now left|].
  destruct (remove_call id cs); tauto.
Qed.

(** C1, as the code has it.  [onData] issues the responder call of every
    request it frames from a chunk at once, in arrival order and numbered
    consecutively, on top of the calls already outstanding, writing
    nothing to the sink or the socket in between: a call does not wait
    for an earlier response.  Any outstanding call may settle, whatever
    its position.  A response is written and offered to the socket in the
    very step in which its call settles, behind what the socket has
    already taken: responses reach the socket in the order in which the
    calls settle. *)
Theorem responder_calls_issued_at_framing :
  (forall c chunk,
     exists ms b,
       frames (S (length (buffer c ++ decode chunk)))
         (buffer c ++ decode chunk) = Some (ms, b)
       /\ outstanding (onData chunk c)
          = outstanding c ++ calls_from (issued c) ms
       /\ buffer (onData chunk c) = b
       /\ sink (onData chunk c) = sink c
       /\ sock (onData chunk c) = sock c)
  /\ (forall c id,
        match settle id c with
        | Some _ => In id (map call_id (outstanding c))
        | None => ~ In id (map call_id (outstanding c))
        end)
  /\ (forall c id output_text n,
        match settle id c with
        | Some _ =>
            taken (sock (step c (EvFulfil id output_text n)))
            = taken (sock c)
                ++ firstn n (sink c ++ encode (normalizeOutput output_text))
        | None => step c (EvFulfil id output_text n) = c
        end)
  /\ (forall c id e n,
        match settle id c with
        | Some _ =>
            taken (sock (step c (EvReject id e n)))
            = taken (sock c)
                ++ firstn n (sink c ++ encode (errorResponse (errorMessage e)))
        | None => step c (EvReject id e n) = c
        end).
Proof.
  split; [|split; [|split]].
  - intros c chunk.
    destruct (onData_frames chunk c) as (ms & b & H & ->).
    destruct (issue_all_fields ms c) as (H1 & H2 & _ & _ & H5 & _).
    exists ms, b. cbn. auto.
  - intros c id. unfold settle.
    pose proof (remove_call_In id (outstanding c)) as H.
    now destruct (remove_call id (outstanding c)).
  - intros c id out n. cbn [step].
    destruct (settle id c) as [c'|] eqn:E; [|reflexivity].
    destruct (settle_fields _ _ _ E) as (Hs & Hk & _).
    destruct (handleRequest_fulfilled_writes n out c') as (W & _).
    now rewrite W, Hs, Hk.
  - intros c id e n. cbn [step].
    destruct (settle id c) as [c'|] eqn:E; [|reflexivity].
    destruct (settle_fields _ _ _ E) as (Hs & Hk & _).
    destruct (handleRequest_rejected_writes n e c') as (W & _).
    now rewrite W, Hs, Hk.
Qed.

(** C1, as the spec has it, fails: one chunk with two pipelined requests
    leaves two responder calls outstanding before anything was written to
    the sink or the socket, and when the second call settles first its
    response is transmitted first. *)
Lemma pipelined_calls_both_outstanding :
  outstanding (run (open fresh_socket)
                 [EvData (ping_request ++ other_request)])
  = [mkCall 0 ping_request; mkCall 1 other_request]
  /\ sink (run (open fresh_socket)
             [EvData (ping_request ++ other_request)]) = []
  /\ taken (sock (run (open fresh_socket)
                    [EvData (ping_request ++ other_request)])) = []
  /\ taken (sock (run (open fresh_socket)
                    [EvData (ping_request ++ other_request);
                     EvFulfil 1 other_response 1000;
                     EvFulfil 0 pong_response 1000]))
     = encode (normalizeOutput other_response)
         ++ encode (normalizeOutput pong_response).
Proof. repeat split. Qed.

(* ================================================================== *)
(** ** Framing of non-ASCII input                                      *)
(* ================================================================== *)

(** C2 at the failing input: fed in one chunk the request is framed as it
    was sent; fed in two chunks cut inside the two-byte character, each
    half is decoded on its own and the framed request carries two
    replacement characters instead. *)
Theorem chunk_cut_inside_character_changes_frames :
  feed [cafe_head ++ cafe_tail] = [cafe_head ++ cafe_tail]
  /\ feed [cafe_head; cafe_tail]
     = [ascii_bytes "GET /caf" ++ [239; 191; 189; 239; 191; 189]
        ++ ascii_bytes " HTTP/1.1" ++ DELIM]
  /\ feed [cafe_head; cafe_tail] <> feed [cafe_head ++ cafe_tail].
Proof. repeat split. discriminate. Qed.

(** C7 at the failing input: the header block declares a length of 2; with
    the two body bytes of U+00E9 buffered nothing is framed, because the
    decoded body is one code unit long; with one more byte the request is
    framed with a body of three bytes. *)
Theorem declared_length_counts_code_units :
  feed [post_headers ++ e_acute] = []
  /\ feed [post_headers ++ e_acute ++ ascii_bytes "X"]
     = [post_headers ++ e_acute ++ ascii_bytes "X"]
  /\ length (e_acute ++ ascii_bytes "X") = 3%nat.
Proof. repeat split. Qed.

(** C8 at the failing input: two complete requests in one chunk, the
    first with the two-byte body it declares; the first framed message
    takes the first byte of the second request, and the second framed
    message is the second request without it. *)
Theorem pipelined_non_ascii_body_misframed :
  feed [(post_headers ++ e_acute) ++ get_b]
  = [post_headers ++ e_acute ++ ascii_bytes "G";
     ascii_bytes "ET /b HTTP/1.1" ++ DELIM]
  /\ feed [(post_headers ++ e_acute) ++ get_b]
     <> [post_headers ++ e_acute; get_b].
Proof. repeat split. discriminate. Qed.

(* ================================================================== *)
(** ** What framing guarantees on decoded text                         *)
(* ================================================================== *)

Lemma bodyLen_declared (hdrs : jsstring) :
  match reContentLength_exec hdrs with
  | Some (_, ds, _) => Number ds
  | None => 0
  end
  = match declaredLength hdrs with Some l => l | None => 0 end.
Proof.
  unfold declaredLength.
  now destruct (reContentLength_exec hdrs) as [[[pre ds] post]|].
Qed.

(** While fewer code units than declared follow the delimiter, nothing is
    framed and the buffer is kept. *)
Lemma frames_waits_for_body (fuel : nat) (buf hdrs rest : jsstring) (l : N) :
  splitHttp buf = Some (hdrs, rest) ->
  declaredLength hdrs = Some l ->
  N.of_nat (length rest) < l ->
  frames (S fuel) buf = Some ([], buf).
Proof.
  intros Hs Hd Hl. cbn [frames]. rewrite Hs, bodyLen_declared, Hd.
  apply N.ltb_lt in Hl. now rewrite Hl.
Qed.

(** Once enough code units follow the delimiter, the first framed request
    is the header block, the delimiter and exactly the declared number of
    code units. *)
Lemma frames_first_request (buf hdrs rest : jsstring) (l : N) :
  splitHttp buf = Some (hdrs, rest) ->
  declaredLength hdrs = Some l ->
  l <= N.of_nat (length rest) ->
  exists ms b,
    frames (S (length buf)) buf
    = Some ((hdrs ++ DELIM ++ firstn (N.to_nat l) rest) :: ms, b).
Proof.
  intros Hs Hd Hl.
  destruct (frames_total buf) as (ms & b & H).
  pose proof H as H'. cbn [frames] in H'.
  rewrite Hs, bodyLen_declared, Hd in H'.
  apply N.ltb_ge in Hl. rewrite Hl in H'.
  destruct (frames (length buf) _) as [[ms' b']|]; [|discriminate].
  injection H' as <- <-. exists ms', b'. rewrite H. do 2 f_equal.
  apply splitHttp_sound in Hs. subst buf. unfold slice_to.
  rewrite <- Nat.add_assoc, firstn_app_2, (firstn_app _ DELIM), firstn_all2
    by (simpl; lia).
  replace (4 + N.to_nat l - length DELIM)%nat with (N.to_nat l)
    by (simpl; lia).
  reflexivity.
Qed.

Lemma frames_S (fuel : nat) (buf : jsstring) :
  frames (S fuel) buf
  = match splitHttp buf with
    | None => Some ([], buf)
    | Some (hdrs, rest) =>
        let bodyLen :=
          match reContentLength_exec hdrs with
          | Some (_, ds, _) => Number ds
          | None => 0
          end in
        if N.of_nat (length rest) <? bodyLen then Some ([], buf)
        else
          let k := (length hdrs + 4 + N.to_nat bodyLen)%nat in
          match frames fuel (slice_from k buf) with
          | Some (ms, b) => Some (slice_to k buf :: ms, b)
          | None => None
          end
    end.
Proof. reflexivity. Qed.

(** Text that arrives later does not change what was already framed: the
    requests framed from [buf] followed by those framed from what [buf]
    left over and the new text are the requests framed from [buf] and the
    new text together. *)
Lemma frames_app (f1 : nat) :
  forall buf t ms1 b1 f,
    frames f1 buf = Some (ms1, b1) ->
    (length (buf ++ t) < f)%nat ->
    frames f (buf ++ t)
    = match frames (S (length (b1 ++ t))) (b1 ++ t) with
      | Some (ms2, b2) => Some (ms1 ++ ms2, b2)
      | None => None
      end.
Proof.
  induction f1 as [|f1 IH]; intros buf t ms1 b1 f H Hf; [discriminate|].
  assert (Same : frames f (buf ++ t)
                 = match frames (S (length (buf ++ t))) (buf ++ t) with
                   | Some (ms2, b2) => Some ([] ++ ms2, b2)
                   | None => None
                   end).
  { destruct (frames_fuel f (S (length (buf ++ t))) (buf ++ t)) as [-> _];
      try lia.
    now destruct (frames _ (buf ++ t)) as [[ms2 b2]|]. }
  cbn [frames] in H.
  destruct (splitHttp buf) as [[hdrs rest]|] eqn:Es.
  2:{ injection H as <- <-. exact Same. }
  destruct (N.ltb_spec (N.of_nat (length rest))
              (match reContentLength_exec hdrs with
               | Some (_, ds, _) => Number ds
               | None => 0
               end)) as [Hlt|Hge].
  { injection H as <- <-. exact Same. }
  clear Same.
  set (bodyLen := match reContentLength_exec hdrs with
                  | Some (_, ds, _) => Number ds
                  | None => 0
                  end) in *.
  set (k := (length hdrs + 4 + N.to_nat bodyLen)%nat) in *.
  destruct (frames f1 (slice_from k buf)) as [[ms' b']|] eqn:Ef; [|discriminate].
  injection H as <- <-.
  pose proof (splitHttp_header_length _ _ _ Es) as Hlen.
  assert (Hk : (k <= length buf)%nat) by (unfold k; lia).
  destruct f as [|f]; [lia|]. rewrite (frames_S f (buf ++ t)).
  rewrite (splitHttp_app _ t _ _ Es). cbv zeta. fold bodyLen.
  assert (Hge' : (N.of_nat (length (rest ++ t)) <? bodyLen) = false).
  { apply N.ltb_ge. rewrite length_app. lia. }
  rewrite Hge'. fold k. unfold slice_from, slice_to in *.
  rewrite skipn_app, firstn_app.
  replace (k - length buf)%nat with O by lia.
  cbn [skipn firstn]. rewrite app_nil_r.
  rewrite (IH _ t _ _ f Ef).
  - now destruct (frames _ (b' ++ t)) as [[ms2 b2]|].
  - rewrite length_app, length_skipn. rewrite length_app in Hf.
    unfold k. lia.
Qed.

(** Two requests back to back are framed as those two, and nothing is
    left in the buffer. *)
Lemma frames_two_requests (r1 r2 : jsstring) :
  complete_request r1 -> complete_request r2 ->
  frames (S (length (r1 ++ r2))) (r1 ++ r2) = Some ([r1; r2], []).
Proof.
  intros (h1 & b1 & S1 & L1) (h2 & b2 & S2 & L2).
  assert (One : forall r h b,
             splitHttp r = Some (h, b) ->
             N.of_nat (length b)
             = match declaredLength h with Some l => l | None => 0 end ->
             frames (S (length r)) r = Some ([r], [])).
  { intros r h b Hs Hl. cbn [frames]. rewrite Hs, bodyLen_declared, <- Hl.
    rewrite N.ltb_irrefl, Nat2N.id.
    pose proof (splitHttp_header_length _ _ _ Hs) as Hlen.
    unfold slice_from, slice_to.
    rewrite skipn_all2, firstn_all2 by lia.
    destruct (length r); [lia | reflexivity]. }
  rewrite (frames_app _ r1 r2 [r1] [] _ (One _ _ _ S1 L1)) by lia.
  cbn [app]. now rewrite (One _ _ _ S2 L2).
Qed.

(* ================================================================== *)
(** ** ASCII input: bytes and code units coincide                      *)
(* ================================================================== *)

Lemma strip_bom_ascii (bs : Uint8Array) :
  forallb is_ascii bs = true -> strip_bom bs = bs.
Proof.
  destruct bs as [|a [|b [|c bs]]]; try reflexivity.
  cbn [forallb strip_bom]. intros [Ha _]%andb_prop.
  unfold is_ascii in Ha. apply N.ltb_lt in Ha.
  destruct (N.eqb_spec a 239); [lia|reflexivity].
Qed.

Lemma utf8_decode_ascii (bs : Uint8Array) :
  forallb is_ascii bs = true -> utf8_decode_from None bs = bs.
Proof.
  induction bs as [|b bs IH]; [reflexivity|].
  cbn [forallb]. intros [Hb Hbs]%andb_prop.
  cbn [utf8_decode_from]. unfold utf8_lead.
  unfold is_ascii in Hb. apply N.ltb_lt in Hb.
  destruct (N.leb_spec b 127); [|lia]. now rewrite (IH Hbs).
Qed.

Lemma utf16_ascii (s : list N) :
  forallb is_ascii s = true -> flat_map utf16_of_scalar s = s.
Proof.
  induction s as [|u s IH]; [reflexivity|].
  cbn [forallb flat_map]. intros [Hu Hs]%andb_prop.
  unfold is_ascii in Hu. apply N.ltb_lt in Hu. rewrite (IH Hs).
  unfold utf16_of_scalar. now destruct (N.ltb_spec u 65536); [|lia].
Qed.

(** ASCII bytes decode to themselves. *)
Lemma decode_ascii (bs : Uint8Array) :
  forallb is_ascii bs = true -> decode bs = bs.
Proof.
  intros H. unfold decode.
  now rewrite strip_bom_ascii, utf8_decode_ascii, utf16_ascii.
Qed.

Lemma issue_all_app (c : Connection) (ms1 ms2 : list jsstring) :
  issue_all c (ms1 ++ ms2) = issue_all (issue_all c ms1) ms2.
Proof. unfold issue_all. now rewrite map_app, fold_left_app. Qed.

Lemma with_buffer_twice (b1 b2 : jsstring) (c : Connection) :
  with_buffer b2 (with_buffer b1 c) = with_buffer b2 c.
Proof. reflexivity. Qed.

(** Two chunks whose decodings concatenate to the decoding of their
    concatenation are handled like the one chunk. *)
Lemma onData_two_chunks (a b : Uint8Array) (c : Connection) :
  decode (a ++ b) = decode a ++ decode b ->
  onData b (onData a c) = onData (a ++ b) c.
Proof.
  intros Hd.
  destruct (onData_frames a c) as (ms1 & b1 & F1 & E1).
  destruct (onData_frames b (onData a c)) as (ms2 & b2 & F2 & E2).
  destruct (onData_frames (a ++ b) c) as (ms3 & b3 & F3 & E3).
  rewrite E2, E3. rewrite E1 in F2 |- *. cbn [with_buffer buffer] in F2.
  rewrite Hd, app_assoc in F3.
  rewrite (frames_app _ _ (decode b) _ _ _ F1) in F3 by lia.
  rewrite F2 in F3. injection F3 as <- <-.
  rewrite issue_all_app, issue_all_with_buffer. reflexivity.
Qed.

Lemma onData_chunks_ascii (chunks : list Uint8Array) :
  forall ch c,
    forallb (forallb is_ascii) (ch :: chunks) = true ->
    fold_left (fun k x => onData x k) chunks (onData ch c)
    = onData (ch ++ concat chunks) c.
Proof.
  induction chunks as [|ch2 chunks IH]; intros ch c H.
  - cbn. now rewrite app_nil_r.
  - cbn [forallb] in H. apply andb_prop in H as [H1 H2].
    cbn [fold_left concat]. rewrite (IH ch2 (onData ch c) H2).
    apply onData_two_chunks.
    assert (H3 : forallb is_ascii (ch2 ++ concat chunks) = true).
    { clear IH. revert ch2 H2.
      induction chunks as [|x xs IHx]; intros ch2 H2.
      - cbn in *. now rewrite app_nil_r, andb_true_r in *.
      - cbn [forallb concat] in *.
        apply andb_prop in H2 as [A B].
        rewrite forallb_app, A. now apply IHx. }
    rewrite !decode_ascii; auto. now rewrite forallb_app, H1, H3.
Qed.

(** Chunk-boundary independence of the framer on ASCII input: however a
    sequence of ASCII bytes is cut into chunks, the framed requests are
    those of the whole sequence fed at once. *)
Lemma feed_ascii_chunks (chunks : list Uint8Array) :
  forallb (forallb is_ascii) chunks = true ->
  feed chunks = feed [concat chunks].
Proof.
  destruct chunks as [|ch chunks]; [reflexivity|].
  intros H. unfold feed. cbn [fold_left].
  now rewrite (onData_chunks_ascii chunks ch _ H).
Qed.

Lemma slices_ascii (k : nat) (s : jsstring) :
  forallb is_ascii s = true ->
  forallb is_ascii (firstn k s) = true /\ forallb is_ascii (skipn k s) = true.
Proof.
  intros H. rewrite <- (firstn_skipn k s), forallb_app in H.
  now apply andb_prop in H.
Qed.

Lemma frames_ascii (fuel : nat) :
  forall buf ms b,
    forallb is_ascii buf = true ->
    frames fuel buf = Some (ms, b) ->
    map encode ms = ms.
Proof.
  induction fuel as [|fuel IH]; intros buf ms b Ha H; [discriminate|].
  rewrite frames_S in H.
  destruct (splitHttp buf) as [[hdrs rest]|].
  2:{ now injection H as <- <-. }
  cbv zeta in H.
  destruct (_ <? _). { now injection H as <- <-. }
  match type of H with
  | context [slice_from ?k buf] =>
      destruct (slices_ascii k buf Ha) as [A1 A2];
      destruct (frames fuel (slice_from k buf)) as [[ms' b']|] eqn:E;
      [|discriminate]
  end.
  injection H as <- <-. cbn [map].
  unfold slice_to. rewrite (encode_ascii _ A1).
  f_equal. exact (IH _ _ _ A2 E).
Qed.

(** On an ASCII chunk fed to a fresh connection the framed messages are
    the requests the loop frames from the bytes themselves. *)
Lemma feed_ascii (chunk : Uint8Array) :
  forallb is_ascii chunk = true ->
  exists b, frames (S (length chunk)) chunk = Some (feed [chunk], b).
Proof.
  intros Ha. unfold feed. cbn [fold_left].
  destruct (onData_frames chunk (open fresh_socket)) as (ms & b & F & ->).
  cbn [open buffer app] in F. rewrite (decode_ascii _ Ha) in F.
  destruct (issue_all_fields ms (open fresh_socket)) as (_ & _ & _ & _ & H & _).
  cbn [with_buffer outstanding]. rewrite H. cbn [open outstanding issued app].
  exists b. rewrite F. do 2 f_equal.
  pose proof (frames_ascii _ _ _ _ Ha F) as Hm.
  clear F H. generalize O. revert Hm.
  induction ms as [|m ms IHm]; intros Hm k; [reflexivity|].
  cbn [map calls_from call_request] in *. injection Hm as H1 H2.
  rewrite H1. f_equal. now apply IHm.
Qed.

(** Pipelining on ASCII input: a chunk of two back-to-back requests, each
    with exactly the body [complete_request] measures, is framed as those
    two requests in arrival order and leaves the buffer empty. *)
Lemma feed_two_ascii_requests (r1 r2 : Uint8Array) :
  forallb is_ascii (r1 ++ r2) = true ->
  complete_request r1 -> complete_request r2 ->
  feed [r1 ++ r2] = [r1; r2]
  /\ buffer (onData (r1 ++ r2) (open fresh_socket)) = [].
Proof.
  intros Ha C1 C2.
  pose proof (frames_two_requests r1 r2 C1 C2) as F.
  destruct (feed_ascii _ Ha) as (b & Fb). rewrite F in Fb.
  injection Fb as E _. split; [symmetry; exact E|].
  destruct (onData_frames (r1 ++ r2) (open fresh_socket)) as (ms & b' & F' & ->).
  cbn [open buffer app] in F'. rewrite (decode_ascii _ Ha), F in F'.
  now injection F' as _ <-.
Qed.

(* ================================================================== *)
(** ** More on framing                                                 *)
(* ================================================================== *)

Lemma frames_concat (fuel : nat) :
  forall buf ms b, frames fuel buf = Some (ms, b) -> concat ms ++ b = buf.
Proof.
  induction fuel as [|fuel IH]; intros buf ms b H; [discriminate|].
  rewrite frames_S in H.
  destruct (splitHttp buf) as [[hdrs rest]|].
  2:{ now injection H as <- <-. }
  cbv zeta in H. destruct (_ <? _). { now injection H as <- <-. }
  match type of H with
  | context [slice_from ?k buf] =>
      destruct (frames fuel (slice_from k buf)) as [[ms' b']|] eqn:E;
      [|discriminate];
      injection H as <- <-; cbn [concat]; rewrite <- app_assoc, (IH _ _ _ E);
      apply firstn_skipn
  end.
Qed.

Lemma frames_stable (fuel : nat) :
  forall buf ms b,
    frames fuel buf = Some (ms, b) ->
    forall fuel', frames (S fuel') b = Some ([], b).
Proof.
  induction fuel as [|fuel IH]; intros buf ms b H fuel'; [discriminate|].
  rewrite frames_S in H.
  destruct (splitHttp buf) as [[hdrs rest]|] eqn:Es.
  2:{ injection H as <- <-. now rewrite frames_S, Es. }
  cbv zeta in H. destruct (_ <? _) eqn:Et.
  { injection H as <- <-. rewrite frames_S, Es. cbv zeta. now rewrite Et. }
  match type of H with
  | context [slice_from ?k buf] =>
      destruct (frames fuel (slice_from k buf)) as [[ms' b']|] eqn:E;
      [|discriminate]
  end.
  injection H as <- <-. exact (IH _ _ _ E fuel').
Qed.

(** X1.  The [while (true)] loop of [onData] returns for every buffer:
    any fuel above the length of the buffer is enough, and the result
    does not depend on it. *)
Theorem onData_loop_terminates (c : Connection) (fuel : nat) :
  (length (buffer c) < fuel)%nat ->
  exists c',
    onData_loop fuel c = Some c'
    /\ onData_loop (S (length (buffer c))) c = Some c'.
Proof.
  intros H. rewrite !onData_loop_frames.
  destruct (frames_fuel fuel (S (length (buffer c))) (buffer c) H
              ltac:(lia)) as [E Hne].
  rewrite <- E.
  destruct (frames fuel (buffer c)) as [[ms b]|]; [eauto|congruence].
Qed.

(** One hundred turns for a buffer of two pipelined requests. *)
Lemma onData_loop_terminates_witness :
  exists c',
    onData_loop 100
      (with_buffer (ping_request ++ other_request) (open fresh_socket))
    = Some c'
    /\ onData_loop (S (length (ping_request ++ other_request)))
         (with_buffer (ping_request ++ other_request) (open fresh_socket))
       = Some c'.
Proof.
  apply (onData_loop_terminates
           (with_buffer (ping_request ++ other_request) (open fresh_socket))
           100).
  cbn. lia.
Defined.

(** X2.  [onData] neither drops nor repeats a code unit: the texts of the
    requests it frames, one responder call each and in order, followed by
    the buffer it leaves, are the old buffer followed by the decoded
    chunk. *)
Theorem onData_conserves_text (chunk : Uint8Array) (c : Connection) :
  exists ms,
    outstanding (onData chunk c) = outstanding c ++ calls_from (issued c) ms
    /\ concat ms ++ buffer (onData chunk c) = buffer c ++ decode chunk.
Proof.
  destruct (onData_frames chunk c) as (ms & b & F & ->).
  destruct (issue_all_fields ms c) as (_ & _ & _ & _ & H & _).
  exists ms. cbn [with_buffer outstanding buffer]. split; [exact H|].
  exact (frames_concat _ _ _ _ F).
Qed.

(** X3.  After [onData] nothing more can be framed from the buffer: an
    empty chunk fed next changes nothing. *)
Theorem onData_then_empty_chunk (chunk : Uint8Array) (c : Connection) :
  onData [] (onData chunk c) = onData chunk c.
Proof.
  destruct (onData_frames chunk c) as (ms & b & F & E).
  destruct (onData_frames [] (onData chunk c)) as (ms2 & b2 & F2 & E2).
  rewrite E2. rewrite E in F2 |- *. cbn [with_buffer buffer] in F2.
  change (decode []) with (@nil N) in F2. rewrite app_nil_r in F2.
  rewrite (frames_stable _ _ _ _ F) in F2. injection F2 as <- <-.
  reflexivity.
Qed.

(** X4.  [onData] only frames and issues calls: it writes nothing to the
    sink or the socket, does not end the socket and does not touch the
    close flag. *)
Theorem onData_writes_nothing (chunk : Uint8Array) (c : Connection) :
  sock (onData chunk c) = sock c
  /\ sink (onData chunk c) = sink c
  /\ closing (onData chunk c) = closing c.
Proof. apply onData_fields. Qed.

(** X5.  While the buffer has no delimiter, or fewer code units follow
    the first delimiter than the header block declares, [onData] frames
    nothing: it keeps all the text in the buffer and leaves the connection
    otherwise as it was. *)
Theorem onData_waits (chunk : Uint8Array) (c : Connection) :
  splitHttp (buffer c ++ decode chunk) = None
  \/ (exists hdrs rest,
        splitHttp (buffer c ++ decode chunk) = Some (hdrs, rest)
        /\ N.of_nat (length rest) < bodyLength hdrs) ->
  onData chunk c = with_buffer (buffer c ++ decode chunk) c.
Proof.
  intros H.
  destruct (onData_frames chunk c) as (ms & b & F & ->).
  rewrite frames_S in F.
  destruct H as [H|(hdrs & rest & H & Hl)]; rewrite H in F.
  - now injection F as <- <-.
  - cbv zeta in F. rewrite bodyLen_declared in F. fold (bodyLength hdrs) in F.
    apply N.ltb_lt in Hl. rewrite Hl in F. now injection F as <- <-.
Qed.

(** The head of a request, then two of its five body bytes. *)
Lemma onData_waits_witness :
  onData (ascii_bytes "Content-Length: 5" ++ DELIM ++ ascii_bytes "ab")
    (open fresh_socket)
  = with_buffer (lit "Content-Length: 5" ++ DELIM ++ lit "ab")
      (open fresh_socket).
Proof.
  apply (onData_waits
           (ascii_bytes "Content-Length: 5" ++ DELIM ++ ascii_bytes "ab")
           (open fresh_socket)).
  right. exists (lit "Content-Length: 5"), (lit "ab").
  split; reflexivity.
Defined.

(** X6.  Once the buffer holds a delimiter and at least the declared
    number of code units behind it (none declared counts as 0, so a
    request without a length header is framed as soon as its header block
    is complete), the first call [onData] issues is for the header block,
    the delimiter and exactly that many code units of body. *)
Theorem onData_first_request
  (chunk : Uint8Array) (c : Connection) (hdrs rest : jsstring) :
  splitHttp (buffer c ++ decode chunk) = Some (hdrs, rest) ->
  bodyLength hdrs <= N.of_nat (length rest) ->
  exists more,
    outstanding (onData chunk c)
    = outstanding c
        ++ mkCall (issued c)
             (encode (hdrs ++ DELIM
                        ++ firstn (N.to_nat (bodyLength hdrs)) rest))
        :: more.
Proof.
  intros Hs Hl.
  destruct (onData_frames chunk c) as (ms & b & F & ->).
  destruct (issue_all_fields ms c) as (_ & _ & _ & _ & H & _).
  cbn [with_buffer outstanding]. rewrite H. clear H.
  rewrite frames_S, Hs in F. cbv zeta in F.
  rewrite bodyLen_declared in F. fold (bodyLength hdrs) in F.
  apply N.ltb_ge in Hl. rewrite Hl in F.
  destruct (frames _ (slice_from _ _)) as [[ms' b']|]; [|discriminate].
  injection F as <- <-. cbn [calls_from].
  exists (calls_from (S (issued c)) ms'). do 3 f_equal.
  apply splitHttp_sound in Hs. rewrite Hs. unfold slice_to.
  rewrite <- Nat.add_assoc, firstn_app_2, (firstn_app _ DELIM), firstn_all2
    by (simpl; lia).
  replace (4 + N.to_nat (bodyLength hdrs) - length DELIM)%nat
    with (N.to_nat (bodyLength hdrs)) by (simpl; lia).
  reflexivity.
Qed.

(** A request without a length header, followed by the start of the
    next one. *)
Lemma onData_first_request_witness :
  exists more,
    outstanding (onData (ping_request ++ ascii_bytes "GET")
                   (open fresh_socket))
    = mkCall 0 ping_request :: more.
Proof.
  exact (onData_first_request (ping_request ++ ascii_bytes "GET")
           (open fresh_socket)
           (lit "GET /ping HTTP/1.1" ++ CRLF ++ lit "Host: x") (lit "GET")
           eq_refl ltac:(cbn; lia)).
Defined.

(** X7.  Two chunks whose decodings concatenate to the decoding of their
    concatenation leave the connection, whatever its state, exactly as
    the one concatenated chunk does. *)
Theorem onData_chunk_boundary (a b : Uint8Array) (c : Connection) :
  decode (a ++ b) = decode a ++ decode b ->
  onData b (onData a c) = onData (a ++ b) c.
Proof. apply onData_two_chunks. Qed.

(** A request cut inside its header block. *)
Lemma onData_chunk_boundary_witness :
  onData (ascii_bytes " HTTP/1.1" ++ DELIM)
    (onData (ascii_bytes "GET /ping") (open fresh_socket))
  = onData (ascii_bytes "GET /ping" ++ ascii_bytes " HTTP/1.1" ++ DELIM)
      (open fresh_socket).
Proof.
  exact (onData_chunk_boundary (ascii_bytes "GET /ping")
           (ascii_bytes " HTTP/1.1" ++ DELIM) (open fresh_socket) eq_refl).
Defined.

(** X8.  On ASCII input framing does not depend on chunk boundaries:
    however a byte sequence is cut into chunks, a fresh connection frames
    from the chunks the requests it frames from the whole sequence fed at
    once. *)
Theorem feed_chunk_boundary_independent_ascii (chunks : list Uint8Array) :
  forallb (forallb is_ascii) chunks = true ->
  feed chunks = feed [concat chunks].
Proof. apply feed_ascii_chunks. Qed.

(** Two requests cut into three chunks, one of them empty. *)
Lemma feed_chunk_boundary_independent_ascii_witness :
  feed [ascii_bytes "GET /ping HT"; []; skipn 12 ping_request ++ other_request]
  = [ping_request; other_request].
Proof.
  exact (feed_chunk_boundary_independent_ascii
           [ascii_bytes "GET /ping HT"; [];
            skipn 12 ping_request ++ other_request] eq_refl).
Defined.

(** X9.  Pipelining on ASCII input: a chunk made of two requests back to
    back, each a header block, the delimiter and exactly as many body code
    units as [onData] reads from that header block (the digits of the
    first match of the length pattern anywhere in it, none when nothing
    matches), is framed by a fresh connection as those two requests in
    arrival order, and the buffer is left empty.  A request whose header
    block matches the pattern before its Content-Length header, with
    other digits, is not such a request. *)
Theorem feed_pipelined_ascii (r1 r2 : Uint8Array) :
  forallb is_ascii (r1 ++ r2) = true ->
  complete_request r1 -> complete_request r2 ->
  feed [r1 ++ r2] = [r1; r2]
  /\ buffer (onData (r1 ++ r2) (open fresh_socket)) = [].
Proof. apply feed_two_ascii_requests. Qed.

(** A request with a two-byte body followed by one without a body. *)
Lemma feed_pipelined_ascii_witness :
  feed [post_ascii ++ ping_request] = [post_ascii; ping_request]
  /\ buffer (onData (post_ascii ++ ping_request) (open fresh_socket)) = [].
Proof.
  apply (feed_pipelined_ascii post_ascii ping_request eq_refl).
  - exists (lit "POST /a HTTP/1.1" ++ CRLF ++ lit "Content-Length: 2"),
      (lit "hi").
    split; reflexivity.
  - exists (lit "GET /ping HTTP/1.1" ++ CRLF ++ lit "Host: x"), [].
    split; reflexivity.
Defined.

(* ================================================================== *)
(** ** Invariants of a run                                             *)
(* ================================================================== *)

Lemma issue_all_history (ms : list jsstring) :
  forall c,
    history (issue_all c ms)
    = history c ++ map (fun m => mkChatMessage user (decode (encode m))) ms.
Proof.
  unfold issue_all. induction ms as [|m ms IH]; intros c.
  - cbn. now rewrite app_nil_r.
  - cbn [map fold_left]. rewrite IH. cbn [handleRequest history].
    now rewrite <- app_assoc.
Qed.

Lemma step_flags (c : Connection) (ev : Event) :
  (closing c = true -> closing (step c ev) = true)
  /\ (ended (sock c) = true -> ended (sock (step c ev)) = true).
Proof.
  assert (F : forall n k,
             closing (flush n k) = closing k
             /\ (ended (sock k) = true -> ended (sock (flush n k)) = true)).
  { intros n k. split.
    - now destruct (flush_fields n k) as (_ & _ & -> & _).
    - intros H. now rewrite flush_ended, H. }
  destruct ev as [chunk|n|id out n|id e n]; cbn [step].
  - destruct (onData_fields chunk c) as (-> & _ & ->). auto.
  - unfold onDrain. destruct (F n c) as [-> Fe]. auto.
  - destruct (settle id c) as [c'|] eqn:E; [|auto].
    destruct (settle_fields _ _ _ E) as (Hs & _ & Hc & _).
    unfold handleRequest_fulfilled.
    match goal with
    | |- context [flush n ?k] => destruct (F n k) as [-> Fe]
    end.
    cbn [sink_write closing sock] in *. rewrite Hc, Hs in *. split; [|exact Fe].
    intros ->. now destruct (reConnectionClose_test _).
  - destruct (settle id c) as [c'|] eqn:E; [|auto].
    destruct (settle_fields _ _ _ E) as (Hs & _ & Hc & _).
    unfold handleRequest_rejected.
    match goal with
    | |- context [flush n ?k] => destruct (F n k) as [-> Fe]
    end.
    cbn [sink_write closing sock] in *. rewrite Hs in *. auto.
Qed.

(** X10.  The close flag and the end of the socket are final: once the
    connection is closing it stays closing, and once the socket is ended
    it stays ended, whatever events follow. *)
Theorem run_flags_final (evs : list Event) (c : Connection) :
  (closing c = true -> closing (run c evs) = true)
  /\ (ended (sock c) = true -> ended (sock (run c evs)) = true).
Proof.
  revert c. induction evs as [|ev evs IH]; intros c; [now split|].
  cbn [run fold_left]. fold (run (step c ev) evs).
  destruct (step_flags c ev) as [A B], (IH (step c ev)) as [A' B'].
  split; auto.
Qed.

(** After the error response, a further request and its answer. *)
Lemma run_flags_final_witness :
  closing (run after_error
             [EvData ping_request; EvFulfil 1 pong_response 1000]) = true.
Proof.
  exact (proj1 (run_flags_final
                  [EvData ping_request; EvFulfil 1 pong_response 1000]
                  after_error) eq_refl).
Defined.

Lemma step_append_only (c : Connection) (ev : Event) :
  (exists bs, taken (sock (step c ev)) = taken (sock c) ++ bs)
  /\ (exists hs, history (step c ev) = history c ++ hs).
Proof.
  assert (F : forall n k,
             (exists bs, taken (sock (flush n k)) = taken (sock k) ++ bs)
             /\ history (flush n k) = history k).
  { intros n k. split.
    - destruct (flush_writes_prefix n k) as (-> & _). eauto.
    - now destruct (flush_fields n k) as (_ & -> & _). }
  destruct ev as [chunk|n|id out n|id e n]; cbn [step].
  - destruct (onData_frames chunk c) as (ms & b & _ & ->).
    destruct (issue_all_fields ms c) as (Hs & _).
    cbn [with_buffer sock history]. rewrite Hs, issue_all_history.
    split; [exists []; now rewrite app_nil_r | eauto].
  - unfold onDrain. destruct (F n c) as [A ->]. split; [exact A|].
    exists []. now rewrite app_nil_r.
  - destruct (settle id c) as [c'|] eqn:E.
    2:{ split; exists []; now rewrite app_nil_r. }
    destruct (settle_fields _ _ _ E) as (Hs & _ & _ & Hh & _).
    unfold handleRequest_fulfilled.
    match goal with
    | |- context [flush n ?k] => destruct (F n k) as [A ->]
    end.
    cbn [sink_write sock history] in *. rewrite Hs, Hh in *. eauto.
  - destruct (settle id c) as [c'|] eqn:E.
    2:{ split; exists []; now rewrite app_nil_r. }
    destruct (settle_fields _ _ _ E) as (Hs & _ & _ & Hh & _).
    unfold handleRequest_rejected.
    match goal with
    | |- context [flush n ?k] => destruct (F n k) as [A ->]
    end.
    cbn [sink_write sock history] in *. rewrite Hs, Hh in *.
    split; [exact A|]. exists []. now rewrite app_nil_r.
Qed.

(** X11.  What the socket has taken and the conversation history only
    grow at their ends: after any run the bytes taken before are a prefix
    of the bytes taken, and the turns recorded before are a prefix of the
    history (no eviction, no rewriting). *)
Theorem run_append_only (evs : list Event) (c : Connection) :
  (exists bs, taken (sock (run c evs)) = taken (sock c) ++ bs)
  /\ (exists hs, history (run c evs) = history c ++ hs).
Proof.
  revert c. induction evs as [|ev evs IH]; intros c.
  - split; exists []; cbn; now rewrite app_nil_r.
  - cbn [run fold_left]. fold (run (step c ev) evs).
    destruct (step_append_only c ev) as [[bs Hb] [hs Hh]].
    destruct (IH (step c ev)) as [[bs' Hb'] [hs' Hh']].
    rewrite Hb', Hh', Hb, Hh, <- !app_assoc. eauto.
Qed.

Lemma turns_app (r : Role) (h1 h2 : list ChatMessage) :
  turns r (h1 ++ h2) = (turns r h1 + turns r h2)%nat.
Proof. unfold turns. now rewrite filter_app, length_app. Qed.

Lemma remove_call_length (id : nat) (cs cs' : list Call) :
  remove_call id cs = Some cs' -> length cs = S (length cs').
Proof.
  revert cs'. induction cs as [|k cs IH]; intros cs' H; [discriminate|].
  cbn [remove_call] in H. destruct (call_id k =? id)%nat.
  - now injection H as <-.
  - destruct (remove_call id cs) as [r|]; [|discriminate].
    injection H as <-. cbn. f_equal. now apply IH.
Qed.

Lemma calls_from_length (ms : list jsstring) :
  forall k, length (calls_from k ms) = length ms.
Proof.
  induction ms as [|m ms IH]; intros k; [reflexivity|].
  cbn. now rewrite IH.
Qed.

Lemma requester_turns (ms : list jsstring) :
  turns user (map (fun m => mkChatMessage user (decode (encode m))) ms)
  = length ms
  /\ turns assistant
       (map (fun m => mkChatMessage user (decode (encode m))) ms) = O.
Proof.
  unfold turns. induction ms as [|m ms [IH1 IH2]]; [now split|].
  cbn [map filter is_role role length]. now rewrite IH1, IH2.
Qed.

(** What a run keeps true of the history and the calls: one requester
    turn per call issued, and a responder turn only for a call that is no
    longer outstanding. *)
Lemma step_turns (c : Connection) (ev : Event) :
  turns user (history c) = issued c ->
  (turns assistant (history c) + length (outstanding c) <= issued c)%nat ->
  turns user (history (step c ev)) = issued (step c ev)
  /\ (turns assistant (history (step c ev)) + length (outstanding (step c ev))
      <= issued (step c ev))%nat.
Proof.
  intros Hu Ha.
  destruct ev as [chunk|n|id out n|id e n]; cbn [step].
  - destruct (onData_frames chunk c) as (ms & b & _ & ->).
    destruct (issue_all_fields ms c) as (_ & _ & _ & _ & Ho & Hi).
    cbn [with_buffer history outstanding issued].
    rewrite issue_all_history, Ho, Hi, !turns_app, length_app.
    destruct (requester_turns ms) as [U A].
    rewrite calls_from_length, U, A. lia.
  - unfold onDrain.
    destruct (flush_fields n c) as (_ & -> & _ & -> & ->). auto.
  - destruct (settle id c) as [c'|] eqn:E; [|auto].
    unfold settle in E.
    destruct (remove_call id (outstanding c)) as [cs|] eqn:Er; [|discriminate].
    injection E as <-. apply remove_call_length in Er.
    unfold handleRequest_fulfilled.
    match goal with
    | |- context [flush n ?k] =>
        destruct (flush_fields n k) as (_ & -> & _ & -> & ->)
    end.
    cbn [sink_write history outstanding issued].
    rewrite !turns_app. cbn. lia.
  - destruct (settle id c) as [c'|] eqn:E; [|auto].
    unfold settle in E.
    destruct (remove_call id (outstanding c)) as [cs|] eqn:Er; [|discriminate].
    injection E as <-. apply remove_call_length in Er.
    unfold handleRequest_rejected.
    match goal with
    | |- context [flush n ?k] =>
        destruct (flush_fields n k) as (_ & -> & _ & -> & ->)
    end.
    cbn [sink_write history outstanding issued]. lia.
Qed.

(** X12.  On a connection opened on any socket, after any run of events,
    the history has exactly one requester turn per request framed so far
    and at most as many responder turns as requests whose call has
    settled: responses never outnumber the requests that were framed. *)
Theorem run_history_turns (evs : list Event) (s : Socket) :
  turns user (history (run (open s) evs)) = issued (run (open s) evs)
  /\ (turns assistant (history (run (open s) evs))
      + length (outstanding (run (open s) evs))
      <= turns user (history (run (open s) evs)))%nat.
Proof.
  assert (G : forall c,
             turns user (history c) = issued c ->
             (turns assistant (history c) + length (outstanding c)
              <= issued c)%nat ->
             turns user (history (run c evs)) = issued (run c evs)
             /\ (turns assistant (history (run c evs))
                 + length (outstanding (run c evs))
                 <= issued (run c evs))%nat).
  { induction evs as [|ev evs IH]; intros c Hu Ha; [now split|].
    cbn [run fold_left]. fold (run (step c ev) evs).
    destruct (step_turns c ev Hu Ha) as [Hu' Ha']. now apply IH. }
  destruct (G (open s) eq_refl ltac:(cbn; lia)) as [A B].
  split; [exact A | now rewrite A].
Qed.

(** X13.  A handler that has a response to write never ends the socket
    itself: after the rejection of a call, and after the fulfilment of a
    call with a non-empty text, the socket is ended only if it was
    before.  When the write took the whole error response, the sink is
    empty and the connection is closing, and it is the next drain that
    ends the socket. *)
Theorem response_does_not_end_socket
  (c : Connection) (n : nat) (e : Thrown) (output_text : jsstring) :
  ended (sock (handleRequest_rejected n e c)) = ended (sock c)
  /\ (normalizeOutput output_text <> [] ->
      ended (sock (handleRequest_fulfilled n output_text c))
      = ended (sock c))
  /\ ((length (sink c ++ encode (errorResponse (errorMessage e))) <= n)%nat ->
      sink (handleRequest_rejected n e c) = []
      /\ closing (handleRequest_rejected n e c) = true
      /\ forall k,
           ended (sock (onDrain k (handleRequest_rejected n e c))) = true).
Proof.
  assert (Ne : forall t : jsstring, t <> [] -> encode t <> []).
  { intros t Ht E. pose proof (encode_length_ge t) as L. rewrite E in L.
    destruct t; [congruence | cbn in L; lia]. }
  assert (Nr : encode (errorResponse (errorMessage e)) <> []).
  { apply Ne. rewrite errorResponse_headers. discriminate. }
  split; [|split].
  - unfold handleRequest_rejected. rewrite flush_ended.
    cbn [sink_write sink sock closing ended].
    destruct (sink c ++ _) eqn:E; [|now rewrite orb_false_r].
    apply app_eq_nil in E as [_ E]. contradiction.
  - intros Ho. unfold handleRequest_fulfilled. rewrite flush_ended.
    cbn [sink_write sink sock closing ended].
    destruct (sink c ++ _) eqn:E; [|now rewrite andb_false_r, orb_false_r].
    apply app_eq_nil in E as [_ E]. now apply Ne in Ho.
  - intros Hn. unfold handleRequest_rejected.
    match goal with
    | |- context [flush n ?k] =>
        destruct (flush_writes_prefix n k) as (_ & W);
        destruct (flush_fields n k) as (_ & _ & Hc & _);
        set (c1 := flush n k) in *
    end.
    cbn [sink_write sink closing] in W, Hc.
    repeat split; auto.
    intros k. unfold onDrain. rewrite flush_ended, W, Hc.
    apply orb_true_r.
Qed.

(** The responder throws on the first request and the socket takes the
    whole error response. *)
Lemma response_does_not_end_socket_witness :
  ended (sock (handleRequest_fulfilled 0 pong_response (open fresh_socket)))
  = false
  /\ ended (sock (onDrain 0 (handleRequest_rejected 1000
                               (ThrownError (lit "boom"))
                               (open fresh_socket)))) = true.
Proof.
  destruct (response_does_not_end_socket (open fresh_socket) 1000
              (ThrownError (lit "boom")) pong_response)
    as (_ & _ & H).
  destruct (response_does_not_end_socket (open fresh_socket) 0
              (ThrownError (lit "boom")) pong_response)
    as (_ & H0 & _).
  split.
  - exact (H0 ltac:(discriminate)).
  - exact (proj2 (proj2 (H ltac:(cbn; lia))) 0%nat).
Defined.

(* ================================================================== *)
(** ** More on the header rewriting                                    *)
(* ================================================================== *)

Lemma safeContentLength_idempotent (h b : jsstring) :
  safeContentLength (safeContentLength h b) b = safeContentLength h b.
Proof.
  unfold safeContentLength.
  set (len := N.of_nat (length (encode b))).
  destruct (toString_shape len) as (d & ds & Hd & Hds & E). rewrite E.
  destruct (reContentLength_exec h) as [[[pre ds0] post]|] eqn:Eh.
  - pose proof (reContentLength_exec_replace h pre ds0 post d ds Eh Hd Hds)
      as H.
    align_exec H. now rewrite H.
  - pose proof (reContentLength_exec_append h d ds [] Eh Hd Hds eq_refl) as H.
    rewrite app_nil_r in H.
    align_exec H. rewrite H. rewrite <- !app_assoc. cbn [app].
    now rewrite ?app_nil_r.
Qed.

Lemma normalizeOutput_content_length_support (out h b : jsstring) :
  splitHttp out = Some (h, b) ->
  normalizeOutput out = safeContentLength h b ++ DELIM ++ b
  /\ splitHttp (normalizeOutput out) = Some (safeContentLength h b, b).
Proof.
  intros H. pose proof (normalizeOutput_split _ _ _ H) as E.
  pose proof (splitHttp_sound _ _ _ H) as Hout. subst out.
  rewrite E. split; [reflexivity|]. now apply safeContentLength_split.
Qed.

(** X14.  The post-processing of a responder text is idempotent: a text
    that went through it once is left as it is by a second pass. *)
Theorem normalizeOutput_idempotent (output_text : jsstring) :
  normalizeOutput (normalizeOutput output_text) = normalizeOutput output_text.
Proof.
  destruct (splitHttp output_text) as [[h b]|] eqn:E.
  - destruct (normalizeOutput_content_length_support output_text h b E)
      as (H1 & H2).
    rewrite (normalizeOutput_split _ _ _ H2), safeContentLength_idempotent.
    now rewrite H1.
  - now rewrite !(normalizeOutput_no_delimiter _ E).
Qed.

Lemma canon_idempotent (c : N) : canon (canon c) = canon c.
Proof.
  unfold canon. destruct ((97 <=? c) && (c <=? 122)) eqn:E; [|now rewrite E].
  apply andb_prop in E as [E1%N.leb_le E2%N.leb_le].
  destruct (N.leb_spec 97 (c - 32)); [lia|reflexivity].
Qed.

Lemma canon_classes (c : N) :
  is_space (canon c) = is_space c /\ is_digit (canon c) = is_digit c.
Proof.
  unfold canon. destruct ((97 <=? c) && (c <=? 122)) eqn:E; [|now split].
  apply andb_prop in E as [E1%N.leb_le E2%N.leb_le].
  assert (Hs : forall x, 65 <= x <= 122 -> is_space x = false).
  { intros x Hx. unfold is_space.
    repeat match goal with
           | |- (_ || _) = false => apply orb_false_intro
           end;
      try (apply N.eqb_neq; lia);
      apply andb_false_iff;
      ((left; apply N.leb_gt; lia) || (right; apply N.leb_gt; lia)). }
  assert (Hd : forall x, 65 <= x <= 122 -> is_digit x = false).
  { intros x Hx. unfold is_digit. apply andb_false_iff. right.
    apply N.leb_gt. lia. }
  rewrite !Hs, !Hd by lia. now split.
Qed.

Lemma match_lit_ci_canon (pat s : jsstring) :
  match_lit_ci pat (map canon s)
  = option_map (map canon) (match_lit_ci pat s).
Proof.
  revert s. induction pat as [|p pat IH]; intros s; [reflexivity|].
  destruct s as [|c s]; [reflexivity|].
  cbn [map match_lit_ci]. rewrite canon_idempotent.
  destruct (canon p =? canon c); [apply IH|reflexivity].
Qed.

Lemma span_canon (f : N -> bool) (s : jsstring) :
  (forall c, f (canon c) = f c) ->
  span f (map canon s)
  = (map canon (fst (span f s)), map canon (snd (span f s))).
Proof.
  intros Hf. induction s as [|c s IH]; [reflexivity|].
  cbn [map span]. rewrite Hf. destruct (f c); [|reflexivity].
  rewrite IH. now destruct (span f s).
Qed.

Lemma digits_canon (ds : jsstring) :
  forallb is_digit ds = true -> map canon ds = ds.
Proof.
  induction ds as [|d ds IH]; [reflexivity|].
  cbn [forallb map]. intros [Hd Hds]%andb_prop. rewrite (IH Hds). f_equal.
  unfold is_digit in Hd. apply andb_prop in Hd as [_ H2%N.leb_le].
  unfold canon. destruct (N.leb_spec 97 d); [lia|reflexivity].
Qed.

Lemma reContentLength_here_canon (s : jsstring) :
  reContentLength_here (map canon s)
  = match reContentLength_here s with
    | Some (ds, post) => Some (ds, map canon post)
    | None => None
    end.
Proof.
  unfold reContentLength_here. rewrite match_lit_ci_canon.
  destruct (match_lit_ci (lit "Content-Length:") s) as [r|]; [|reflexivity].
  cbn [option_map].
  rewrite (span_canon is_space r (fun c => proj1 (canon_classes c))).
  cbn [snd].
  rewrite (span_canon is_digit _ (fun c => proj2 (canon_classes c))).
  pose proof (span_fst_all is_digit (snd (span is_space r))) as Hall.
  destruct (span is_digit (snd (span is_space r))) as [ds post].
  cbn [fst snd] in *. rewrite (digits_canon ds Hall).
  now destruct ds.
Qed.

Lemma declaredLength_canon (h : jsstring) :
  declaredLength (map canon h) = declaredLength h.
Proof.
  unfold declaredLength.
  induction h as [|c h IH].
  - reflexivity.
  - cbn [map reContentLength_exec].
    change (canon c :: map canon h) with (map canon (c :: h)).
    rewrite reContentLength_here_canon.
    destruct (reContentLength_here (c :: h)) as [[ds post]|]; [reflexivity|].
    destruct (reContentLength_exec (map canon h)) as [[[p1 d1] q1]|],
             (reContentLength_exec h) as [[[p2 d2] q2]|]; auto.
Qed.

(** X15.  The length header is recognised whatever the case of its
    letters: two header blocks that differ only in the case of ASCII
    letters declare the same body length to [onData]. *)
Theorem declaredLength_ignores_case (h1 h2 : jsstring) :
  map canon h1 = map canon h2 ->
  declaredLength h1 = declaredLength h2
  /\ bodyLength h1 = bodyLength h2.
Proof.
  intros H.
  assert (E : declaredLength h1 = declaredLength h2).
  { now rewrite <- (declaredLength_canon h1), H, declaredLength_canon. }
  split; [exact E|]. unfold bodyLength. now rewrite E.
Qed.

(** The header name in lower case and in upper case. *)
Lemma declaredLength_ignores_case_witness :
  declaredLength (lit "content-length: 12") = Some 12
  /\ bodyLength (lit "content-length: 12") = 12.
Proof.
  exact (declaredLength_ignores_case (lit "content-length: 12")
           (lit "CONTENT-LENGTH: 12") eq_refl).
Defined.

(* ================================================================== *)
(** ** More on the delimiter search                                    *)
(* ================================================================== *)

(** X16.  [splitHttp] cuts at the first delimiter: its argument is the
    header part, the delimiter and the rest, no delimiter starts at any
    earlier position, and whatever the rest contains, further delimiters
    included, stays in the rest. *)
Theorem splitHttp_first_delimiter (s h r : jsstring) :
  splitHttp s = Some (h, r) ->
  s = h ++ DELIM ++ r
  /\ forall k, (k < length h)%nat -> startsWith DELIM (skipn k s) = false.
Proof.
  intros H. split; [now apply splitHttp_sound|].
  revert h r H. induction s as [|c s IH]; intros h r H k Hk; [discriminate|].
  rewrite splitHttp_cons in H.
  destruct (startsWith DELIM (c :: s)) eqn:E.
  - injection H as <- <-. cbn in Hk. lia.
  - destruct (splitHttp s) as [[h' r']|] eqn:Es; [|discriminate].
    injection H as <- <-. destruct k as [|k]; [exact E|].
    cbn [skipn]. apply (IH _ _ eq_refl). cbn in Hk. lia.
Qed.

(** A text with two delimiters. *)
Lemma splitHttp_first_delimiter_witness :
  lit "a" ++ DELIM ++ lit "b" ++ DELIM = lit "a" ++ DELIM ++ lit "b" ++ DELIM
  /\ forall k, (k < 1)%nat ->
       startsWith DELIM (skipn k (lit "a" ++ DELIM ++ lit "b" ++ DELIM))
       = false.
Proof.
  exact (splitHttp_first_delimiter (lit "a" ++ DELIM ++ lit "b" ++ DELIM)
           (lit "a") (lit "b" ++ DELIM) eq_refl).
Defined.

(** X17.  Text that arrives later never moves the cut: when a delimiter
    was found in a text, it is found at the same place in the text
    followed by anything, and what follows goes to the rest. *)
Theorem splitHttp_stable_under_append (s t h r : jsstring) :
  splitHttp s = Some (h, r) -> splitHttp (s ++ t) = Some (h, r ++ t).
Proof. apply splitHttp_app. Qed.

Lemma splitHttp_stable_under_append_witness :
  splitHttp ((lit "a" ++ DELIM ++ lit "b") ++ DELIM)
  = Some (lit "a", lit "b" ++ DELIM).
Proof.
  exact (splitHttp_stable_under_append (lit "a" ++ DELIM ++ lit "b") DELIM
           (lit "a") (lit "b") eq_refl).
Defined.

(* ================================================================== *)
(** ** The user agent of a request                                     *)
(* ================================================================== *)

Lemma startsWith_firstn (p : jsstring) :
  forall k s, startsWith p (firstn k s) = true -> startsWith p s = true.
Proof.
  induction p as [|a p IH]; intros k s H; [reflexivity|].
  destruct k as [|k], s as [|c s]; try discriminate.
  cbn [firstn startsWith] in *.
  apply andb_prop in H as [-> H]. exact (IH _ _ H).
Qed.

Lemma startsWith_firstn_long (p : jsstring) :
  forall k s,
    startsWith p s = true -> (length p <= k)%nat ->
    startsWith p (firstn k s) = true.
Proof.
  induction p as [|a p IH]; intros k s H Hk; [reflexivity|].
  destruct s as [|c s]; [discriminate|].
  destruct k as [|k]; [cbn in Hk; lia|].
  cbn [firstn startsWith length] in *.
  apply andb_prop in H as [-> H]. apply IH; [exact H | lia].
Qed.

(** The piece before the first occurrence of a non-empty separator does
    not contain the separator. *)
Lemma indexOf_firstn_none (p : jsstring) :
  p <> [] ->
  forall s i, indexOf p s = Some i -> indexOf p (firstn i s) = None.
Proof.
  intros Hp. induction s as [|c s IH]; intros i H.
  - destruct p; [congruence | discriminate].
  - cbn [indexOf] in H. destruct (startsWith p (c :: s)) eqn:E.
    + injection H as <-. destruct p; [congruence | reflexivity].
    + destruct (indexOf p s) as [i'|] eqn:Ei; [|discriminate].
      injection H as <-. cbn [firstn indexOf].
      destruct (startsWith p (c :: firstn i' s)) eqn:E2.
      * apply (startsWith_firstn p (S i') (c :: s)) in E2. congruence.
      * now rewrite (IH _ eq_refl).
Qed.

Lemma indexOf_firstn_some (p : jsstring) :
  forall s i k,
    indexOf p s = Some i -> (i + length p <= k)%nat ->
    indexOf p (firstn k s) = Some i.
Proof.
  induction s as [|c s IH]; intros i k H Hk.
  - destruct p; [|discriminate]. injection H as <-. now destruct k.
  - cbn [indexOf] in H. destruct (startsWith p (c :: s)) eqn:E.
    + injection H as <-.
      pose proof (startsWith_firstn_long p k (c :: s) E ltac:(lia)) as E2.
      destruct (firstn k (c :: s)) as [|c' s'] eqn:Ef.
      * destruct p; [reflexivity | discriminate].
      * cbn [indexOf]. now rewrite E2.
    + destruct (indexOf p s) as [i'|] eqn:Ei; [|discriminate].
      injection H as <-. destruct k as [|k]; [lia|].
      cbn [firstn indexOf].
      destruct (startsWith p (c :: firstn k s)) eqn:E2.
      * apply (startsWith_firstn p (S k) (c :: s)) in E2. congruence.
      * rewrite (IH i' k eq_refl) by lia. reflexivity.
Qed.

Lemma split_first (sep t : jsstring) :
  nth_error (split sep t) 0
  = Some (match indexOf sep t with
          | Some i => firstn i t
          | None => t
          end).
Proof.
  unfold split. cbn [split_fuel]. now destruct (indexOf sep t).
Qed.

Lemma split_second (sep s : jsstring) :
  sep <> [] ->
  nth_error (split sep s) 1
  = match indexOf sep s with
    | None => None
    | Some i =>
        Some (match indexOf sep (skipn (i + length sep) s) with
              | Some j => firstn j (skipn (i + length sep) s)
              | None => skipn (i + length sep) s
              end)
    end.
Proof.
  intros Hsep. unfold split. cbn [split_fuel].
  destruct (indexOf sep s) as [i|] eqn:E; [|reflexivity].
  cbn [nth_error]. unfold slice_from.
  destruct s as [|c s].
  - destruct sep; [congruence | discriminate].
  - cbn [length split_fuel].
    now destruct (indexOf sep (skipn (i + length sep) (c :: s))).
Qed.

Lemma userAgent_unfold (raw : jsstring) :
  userAgent raw
  = match indexOf (lit "User-Agent: ") raw with
    | None => DEFAULT_USER_AGENT
    | Some i =>
        let after := skipn (i + 12) raw in
        let piece := match indexOf (lit "User-Agent: ") after with
                     | Some k => firstn k after
                     | None => after
                     end in
        match indexOf CRLF piece with
        | Some j => firstn j piece
        | None => piece
        end
    end.
Proof.
  unfold userAgent. rewrite split_second by discriminate.
  destruct (indexOf (lit "User-Agent: ") raw) as [i|]; [|reflexivity].
  now rewrite split_first.
Qed.

(** X18.  The user agent extracted from a request never contains a line
    break, whatever the request; and a request without the text
    User-Agent: and a space (the match is case-sensitive and looks at the
    whole request, body included) gets the default user agent. *)
Theorem userAgent_single_line (raw : jsstring) :
  indexOf CRLF (userAgent raw) = None
  /\ (indexOf (lit "User-Agent: ") raw = None ->
      userAgent raw = DEFAULT_USER_AGENT).
Proof.
  rewrite userAgent_unfold.
  destruct (indexOf (lit "User-Agent: ") raw) as [i|]; [|now split].
  split; [|discriminate]. cbv zeta.
  match goal with
  | |- indexOf CRLF (match indexOf CRLF ?p with _ => _ end) = None =>
      destruct (indexOf CRLF p) as [j|] eqn:E;
      [apply indexOf_firstn_none; [discriminate | exact E] | exact E]
  end.
Qed.

(** A request with the header name in lower case. *)
Lemma userAgent_single_line_witness :
  userAgent (lit "GET / HTTP/1.1" ++ CRLF ++ lit "user-agent: curl/8.0"
             ++ DELIM)
  = DEFAULT_USER_AGENT.
Proof.
  exact (proj2 (userAgent_single_line
                  (lit "GET / HTTP/1.1" ++ CRLF ++ lit "user-agent: curl/8.0"
                   ++ DELIM)) eq_refl).
Defined.

Lemma startsWith_before_CRLF (p : jsstring) :
  forallb (fun c => negb (c =? CR)) p = true ->
  forall x m,
    startsWith p x = true -> indexOf CRLF x = Some m ->
    startsWith p (firstn m x) = true.
Proof.
  induction p as [|a p IH]; intros Hp x m H Hm; [reflexivity|].
  cbn [forallb] in Hp. apply andb_prop in Hp as [Ha Hp].
  destruct x as [|c x]; [discriminate|].
  cbn [startsWith] in H. apply andb_prop in H as [Hac H].
  apply N.eqb_eq in Hac. subst c.
  cbn [indexOf] in Hm.
  assert (E : startsWith CRLF (a :: x) = false).
  { unfold CRLF. cbn [startsWith]. rewrite N.eqb_sym.
    apply negb_true_iff in Ha. now rewrite Ha. }
  rewrite E in Hm.
  destruct (indexOf CRLF x) as [m'|] eqn:Em; [|discriminate].
  injection Hm as <-. cbn [firstn startsWith].
  rewrite N.eqb_refl. exact (IH Hp _ _ H Em).
Qed.

(** The next occurrence of the header name, if any, lies behind the line
    break that ends a value without the header name in it. *)
Lemma next_userAgent_behind_CRLF (after : jsstring) :
  forall j,
    indexOf CRLF after = Some j ->
    indexOf (lit "User-Agent: ") (firstn j after) = None ->
    match indexOf (lit "User-Agent: ") after with
    | Some k => (j + 2 <= k)%nat
    | None => True
    end.
Proof.
  induction after as [|c a IH]; intros j Hj Hn; [discriminate|].
  cbn [indexOf] in Hj. destruct (startsWith CRLF (c :: a)) eqn:Ec.
  - injection Hj as <-.
    unfold CRLF in Ec.
    destruct a as [|d a];
      [cbn [startsWith] in Ec; rewrite andb_false_r in Ec; discriminate|].
    cbn [startsWith] in Ec.
    apply andb_prop in Ec as [E1%N.eqb_eq E2].
    apply andb_prop in E2 as [E2%N.eqb_eq _]. subst c d.
    cbn [indexOf].
    change (startsWith (lit "User-Agent: ") (CR :: LF :: a)) with false.
    change (startsWith (lit "User-Agent: ") (LF :: a)) with false.
    cbv iota. destruct (indexOf (lit "User-Agent: ") a); cbn; [lia|exact I].
  - destruct (indexOf CRLF a) as [j'|] eqn:Ej; [|discriminate].
    injection Hj as <-. cbn [firstn indexOf] in Hn.
    destruct (startsWith (lit "User-Agent: ") (c :: firstn j' a)) eqn:E1;
      [discriminate|].
    destruct (indexOf (lit "User-Agent: ") (firstn j' a)) eqn:E2;
      [discriminate|].
    cbn [indexOf].
    destruct (startsWith (lit "User-Agent: ") (c :: a)) eqn:E3.
    + pose proof (startsWith_before_CRLF (lit "User-Agent: ") eq_refl
                    (c :: a) (S j') E3) as H.
      cbn [indexOf] in H. rewrite Ec, Ej in H. specialize (H eq_refl).
      cbn [firstn] in H. congruence.
    + specialize (IH j' eq_refl E2).
      destruct (indexOf (lit "User-Agent: ") a); cbn; [lia|exact I].
Qed.

(** X19.  When the text User-Agent: and a space first occurs at position
    [i] of a request and the text between it and the next line break does
    not contain it again, the extracted user agent is exactly that
    text. *)
Theorem userAgent_value (raw : jsstring) (i j : nat) :
  indexOf (lit "User-Agent: ") raw = Some i ->
  indexOf CRLF (skipn (i + 12) raw) = Some j ->
  indexOf (lit "User-Agent: ") (firstn j (skipn (i + 12) raw)) = None ->
  userAgent raw = firstn j (skipn (i + 12) raw).
Proof.
  intros Hi Hj Hn. rewrite userAgent_unfold, Hi. cbv zeta.
  set (after := skipn (i + 12) raw) in *.
  pose proof (next_userAgent_behind_CRLF after j Hj Hn) as Hk.
  destruct (indexOf (lit "User-Agent: ") after) as [k|].
  - rewrite (indexOf_firstn_some CRLF after j k Hj) by (cbn; lia).
    rewrite firstn_firstn. f_equal. lia.
  - now rewrite Hj.
Qed.

(** A request whose second header is the user agent. *)
Lemma userAgent_value_witness : userAgent curl_request = lit "curl/8.0".
Proof.
  exact (userAgent_value curl_request 16 8 eq_refl eq_refl eq_refl).
Defined.

(* ================================================================== *)
(** ** The log path                                                    *)
(* ================================================================== *)

Lemma replace_colon_dot_clean (r : N) (s : jsstring) :
  r <> 58 -> r <> 46 ->
  forallb (fun c => negb ((c =? 58) || (c =? 46))) (replace_colon_dot r s)
  = true
  /\ length (replace_colon_dot r s) = length s.
Proof.
  intros H1 H2. unfold replace_colon_dot. split; [|apply length_map].
  induction s as [|c s IH]; [reflexivity|].
  cbn [map forallb]. rewrite IH, andb_true_r.
  destruct ((c =? 58) || (c =? 46)) eqn:E.
  - apply N.eqb_neq in H1, H2. now rewrite H1, H2.
  - now rewrite E.
Qed.

(** X20.  Whatever the timestamp and the peer address, the log path is
    ./logs/, a file name and .log, where the file name contains neither a
    colon nor a dot (the colons of a time or of an IPv6 address and the
    dots of an IPv4 address are replaced one for one). *)
Theorem logPath_name_clean (iso : jsstring) (remoteAddress : option jsstring) :
  exists name,
    logPath iso remoteAddress = lit "./logs/" ++ name ++ lit ".log"
    /\ forallb (fun c => negb ((c =? 58) || (c =? 46))) name = true
    /\ length name
       = (length iso + 1
          + match remoteAddress with
            | Some a => length a
            | None => 9
            end)%nat.
Proof.
  exists (replace_colon_dot 45 iso ++ lit "_"
          ++ match remoteAddress with
             | Some a => replace_colon_dot 95 a
             | None => lit "undefined"
             end).
  destruct (replace_colon_dot_clean 45 iso) as [A1 A2]; try discriminate.
  split; [|split].
  - unfold logPath. now rewrite <- !app_assoc.
  - rewrite !forallb_app, A1. cbn [andb].
    destruct remoteAddress as [a|]; [|reflexivity].
    destruct (replace_colon_dot_clean 95 a) as [B1 _]; try discriminate.
    now rewrite B1.
  - rewrite !length_app, A2.
    destruct remoteAddress as [a|]; [|cbn; lia].
    destruct (replace_colon_dot_clean 95 a) as [_ B2]; try discriminate.
    rewrite B2. cbn. lia.
Qed.
